(** * MakerJs.path.fillet: a shallow embedding of src/core/fillet.ts

    The fillet core rounds the corner between two paths that share an
    endpoint.  It reads the two caller-supplied path objects, calls the
    geometry library (points, angles, measures, intersections) and, on
    success only, overwrites one endpoint field of each path.

    Modelling choices.
    - JS numbers are idealised as rationals [Q]; [==] is [Qeq_bool] and
      [>] is the negation of [Qle_bool].
    - Path objects live in a store [gmap loc IPath]; a path argument is a
      reference [loc] (or null), so that two arguments may alias.
    - Functions of fillet.ts that read or write path objects, or that can
      raise a [TypeError], run in the state-and-exception monad [M].
    - Functions of the geometry library that are called by fillet.ts but
      are defined in other files are fields of the class [Collaborators];
      they are taken to be total and to leave the caller's objects alone. *)

From Stdlib Require Import QArith Qround Lqa.
From stdpp Require Import base option list gmap strings.

Local Open Scope Q_scope.
Local Open Scope string_scope.

(** ** Data model *)

(** [IPoint] is a coordinate pair [[x, y]]. *)
Definition IPoint : Type := Q * Q.

(** Modelled from the spec: the path classes are declared outside
    fillet.ts.  A [Line] has [origin] and [end]; a [Circle] has [origin]
    (its centre) and [radius]; an [Arc] has [origin] (its centre),
    [radius], [startAngle] and [endAngle].  The constructors stand for
    [new paths.Line(..)], [new paths.Circle(..)] and [new paths.Arc(..)];
    the constructor itself is the object's [type] tag. *)
Inductive IPath : Type :=
| Line (origin end_ : IPoint)
| Circle (origin : IPoint) (radius : Q)
| Arc (origin : IPoint) (radius startAngle endAngle : Q).

(** Values that a property of a path object can hold. *)
Inductive value : Type :=
| VUndefined
| VNumber (n : Q)
| VPoint (p : IPoint).

(** [o[name]]: a property that the object does not declare reads as
    [undefined]. *)
Definition read_prop (o : IPath) (name : string) : value :=
  match o with
  | Line origin end_ =>
      if String.eqb name "origin" then VPoint origin
      else if String.eqb name "end" then VPoint end_
      else VUndefined
  | Circle origin radius =>
      if String.eqb name "origin" then VPoint origin
      else if String.eqb name "radius" then VNumber radius
      else VUndefined
  | Arc origin radius startAngle endAngle =>
      if String.eqb name "origin" then VPoint origin
      else if String.eqb name "radius" then VNumber radius
      else if String.eqb name "startAngle" then VNumber startAngle
      else if String.eqb name "endAngle" then VNumber endAngle
      else VUndefined
  end.

(** [o[name] = v].  The model tracks the declared fields of each path
    type: a write to any other property name leaves them as they are, and
    so does a write that the field's declared type excludes. *)
Definition write_prop (o : IPath) (name : string) (v : value) : IPath :=
  match o, v with
  | Line origin end_, VPoint p =>
      if String.eqb name "origin" then Line p end_
      else if String.eqb name "end" then Line origin p
      else o
  | Circle origin radius, VPoint p =>
      if String.eqb name "origin" then Circle p radius else o
  | Circle origin radius, VNumber n =>
      if String.eqb name "radius" then Circle origin n else o
  | Arc origin radius startAngle endAngle, VPoint p =>
      if String.eqb name "origin" then Arc p radius startAngle endAngle else o
  | Arc origin radius startAngle endAngle, VNumber n =>
      if String.eqb name "radius" then Arc origin n startAngle endAngle
      else if String.eqb name "startAngle" then Arc origin radius n endAngle
      else if String.eqb name "endAngle" then Arc origin radius startAngle n
      else o
  | _, _ => o
  end.

(** References to path objects, and the store they point into. *)
Definition loc : Type := nat.
Abbreviation store := (gmap loc IPath).

(** ** The state-and-exception monad *)

Inductive exn : Type := TypeError.

Inductive completion (A : Type) : Type :=
| Normal (a : A)
| Throw (e : exn).
Arguments Normal {A} a.
Arguments Throw {A} e.

Definition M (A : Type) : Type := store → completion A * store.

Definition ret {A} (a : A) : M A := λ s, (Normal a, s).

Definition throw {A} (e : exn) : M A := λ s, (Throw e, s).

Definition bind {A B} (c : M A) (k : A → M B) : M B :=
  λ s, match c s with
       | (Normal a, s') => k a s'
       | (Throw e, s') => (Throw e, s')
       end.

Notation "'let*' x ':=' c 'in' k" := (bind c (λ x, k))
  (at level 10, x pattern, c at level 100, k at level 200, only parsing).

(** Sequencing of steps that may each end the enclosing function with
    [return null]: [None] is the early return. *)
Definition bindO {A B} (c : M (option A)) (k : A → M (option B)) : M (option B) :=
  bind c (λ r, match r with Some a => k a | None => ret None end).

Notation "'let?' x ':=' c 'in' k" := (bindO c (λ x, k))
  (at level 10, x pattern, c at level 100, k at level 200, only parsing).

(** [l] dereferenced.  A reference that names no object behaves as
    [undefined]: reading or writing a property of it raises. *)
Definition deref (l : loc) : M IPath :=
  λ s, match s !! l with
       | Some o => (Normal o, s)
       | None => (Throw TypeError, s)
       end.

(** [l[name]] *)
Definition get_prop (l : loc) (name : string) : M value :=
  let* o := deref l in ret (read_prop o name).

(** [l[name] = v] *)
Definition set_prop (l : loc) (name : string) (v : value) : M unit :=
  λ s, match s !! l with
       | Some o => (Normal tt, <[l := write_prop o name v]> s)
       | None => (Throw TypeError, s)
       end.

(** [x > y] and the truthiness of a number. *)
Definition Qgt_bool (x y : Q) : bool := negb (Qle_bool x y).
Definition truthy (x : Q) : bool := negb (Qeq_bool x 0).

(** ** Interfaces of fillet.ts (lines 8-28) *)

Record IPointProperty : Type := mkPointProperty {
  pp_point : IPoint;
  pp_propertyName : string
}.

Record IMatchPointProperty : Type := mkMatch {
  path : loc;
  isStart : bool;
  propertyName : string;
  point : IPoint;
  shardPoint : option IPoint   (* optional field: [None] is undefined *)
}.

Definition with_shardPoint (m : IMatchPointProperty) (p : option IPoint)
  : IMatchPointProperty :=
  mkMatch (path m) (isStart m) (propertyName m) (point m) p.

Record IFilletResult : Type := mkFilletResult {
  filletAngle : Q;
  clipPath : M unit
}.

(** The part of the intersection result that fillet.ts reads. *)
Record IPathIntersection : Type := mkIntersection {
  intersectionPoints : list IPoint
}.

(** ** The geometry library, as called from fillet.ts *)

Class Collaborators : Type := {
  (* point.fromArc(arc): the arc's start point and end point *)
  point_fromArc : IPath → IPoint * IPoint;
  point_areEqualRounded : IPoint → IPoint → bool;
  point_closest : IPoint → list IPoint → IPoint;
  (* breakAtPoint(p, pt) shortens [p] in place and returns the cut-off
     rest or null: the pair is ([p] afterwards, the returned path) *)
  breakAtPoint : IPath → option IPoint → IPath * option IPath;
  measure_isArcConcaveTowardsPoint : IPath → option IPoint → bool;
  measure_pathLength : IPath → Q;
  measure_arcAngle : IPath → Q;
  (* new paths.Parallel(line, distance, nearPoint) *)
  paths_Parallel : IPath → Q → option IPoint → IPath;
  angle_ofLineInDegrees : IPath → Q;
  angle_toDegrees : Q → Q;
  angle_ofPointInRadians : IPoint → IPoint → Q;
  (* path.rotate and path.moveRelative change their argument in place:
     the result is the argument afterwards *)
  path_rotate : IPath → Q → IPoint → IPath;
  path_moveRelative : IPath → IPoint → IPath;
  slopeIntersectionPoint : IPath → IPath → option IPoint;
  (* intersection(path1, path2): either argument may be null *)
  intersection : option IPath → option IPath → option IPathIntersection
}.

(** Modelled from the spec: [cloneObject] is defined outside fillet.ts;
    the spec describes it as "clone(path) → independent copy".  A copy of
    a value is the value. *)
Definition cloneObject (o : IPath) : IPath := o.

Section Fillet.
Context `{Collaborators}.

(** fillet.ts, lines 39-57: the dispatch on the type of the inspected
    object.  The map has entries for Arc and Line only; for any other
    type [result] stays null. *)
Definition pointPropertiesOf (o : IPath) : option (list IPointProperty) :=
  match o with
  | Arc _ _ _ _ =>
      let arcPoints := point_fromArc o in
      Some [ mkPointProperty (fst arcPoints) "startAngle";
             mkPointProperty (snd arcPoints) "endAngle" ]
  | Line origin end_ =>
      Some [ mkPointProperty origin "origin";
             mkPointProperty end_ "end" ]
  | _ => None
  end.

(** fillet.ts, lines 33-60. *)
Definition getPointProperties (pathToInspect : loc) : M (option (list IPointProperty)) :=
  let* o := deref pathToInspect in
  ret (pointPropertiesOf o).

(** [props[index]] followed by a property read: raises when [props] is
    null or the element is undefined. *)
Definition element (props : option (list IPointProperty)) (index : nat)
  : completion IPointProperty :=
  match props with
  | None => Throw TypeError
  | Some l => match l !! index with
              | Some p => Normal p
              | None => Throw TypeError
              end
  end.

(** fillet.ts, lines 71-78. *)
Definition makeMatch (pathContext : loc) (pointProperties : option (list IPointProperty))
    (index : nat) : completion IMatchPointProperty :=
  match element pointProperties index with
  | Normal p =>
      Normal (mkMatch pathContext (Nat.eqb index 0) (pp_propertyName p) (pp_point p) None)
  | Throw e => Throw e
  end.

(** fillet.ts, lines 80-89.  [check] returns [Some result] where the
    source assigns [result] and returns true, [None] where it returns
    false. *)
Definition check (path1 path2 : loc)
    (path1Properties path2Properties : option (list IPointProperty))
    (i1 i2 : nat) : completion (option (IMatchPointProperty * IMatchPointProperty)) :=
  match element path1Properties i1 with
  | Throw e => Throw e
  | Normal p1 =>
    match element path2Properties i2 with
    | Throw e => Throw e
    | Normal p2 =>
      if point_areEqualRounded (pp_point p1) (pp_point p2) then
        match makeMatch path1 path1Properties i1 with
        | Throw e => Throw e
        | Normal m1 =>
          match makeMatch path2 path2Properties i2 with
          | Throw e => Throw e
          | Normal m2 => Normal (Some (m1, m2))
          end
        end
      else Normal None
    end
  end.

(** [a || b] on checks: [b] runs only when [a] returned false. *)
Definition orElse {A} (a b : completion (option A)) : completion (option A) :=
  match a with
  | Normal None => b
  | _ => a
  end.

(** fillet.ts, lines 65-94.  The two-element result array is a pair. *)
Definition getMatchingPointProperties (path1 path2 : loc)
  : M (option (IMatchPointProperty * IMatchPointProperty)) :=
  let* path1Properties := getPointProperties path1 in
  let* path2Properties := getPointProperties path2 in
  let check := check path1 path2 path1Properties path2Properties in
  λ s, (orElse (check 0%nat 0%nat)
          (orElse (check 0%nat 1%nat)
             (orElse (check 1%nat 0%nat) (check 1%nat 1%nat))), s).

(** fillet.ts, lines 99-103.  The result is the two-element array
    [[shardStart, shardEnd]]; its second element may be null. *)
Definition cloneAndBreakPath (pathToShard : IPath) (shardPoint : option IPoint)
  : IPath * option IPath :=
  let shardStart := cloneObject pathToShard in
  breakAtPoint shardStart shardPoint.

(** fillet.ts, lines 108-139. *)
Definition getGuidePath (context : IMatchPointProperty) (filletRadius : Q)
    (nearPoint : option IPoint) : M (option IPath) :=
  let* o := deref (path context) in
  match o with
  | Arc origin radius startAngle endAngle =>
      let guideRadius := radius in
      let shards := cloneAndBreakPath o (shardPoint context) in
      let guideArcShard := if isStart context then Some (fst shards) else snd shards in
      match guideArcShard with
      | Some guideArcShard =>
          let guideRadius :=
            if measure_isArcConcaveTowardsPoint guideArcShard nearPoint
            then guideRadius - filletRadius
            else guideRadius + filletRadius in
          ret (Some (Arc origin guideRadius startAngle endAngle))
      | None => ret None
      end
  | Line _ _ => ret (Some (paths_Parallel o filletRadius nearPoint))
  | _ => ret None
  end.

(** fillet.ts, lines 149-165: the Arc entry of the dispatch map.  [arc]
    is the object [context.path] refers to. *)
Definition arcFilletResult (context : IMatchPointProperty) (arc : IPath)
    (filletCenter : IPoint) : option IFilletResult :=
  match arc with
  | Arc origin _ _ _ =>
      let guideLine := Line origin filletCenter in
      let guideLineAngle := angle_ofLineInDegrees guideLine in
      let filletAngle :=
        if negb (measure_isArcConcaveTowardsPoint arc (Some filletCenter))
        then guideLineAngle + 180
        else guideLineAngle in
      Some (mkFilletResult filletAngle
              (set_prop (path context) (propertyName context) (VNumber guideLineAngle)))
  | _ => None
  end.

(** fillet.ts, lines 167-186: the Line entry of the dispatch map. *)
Definition lineFilletResult (context : IMatchPointProperty) (line : IPath)
    (filletCenter : IPoint) : option IFilletResult :=
  let guideLine := Line (0, 0) (0, 1) in
  let lineAngle := angle_ofLineInDegrees line in
  let guideLine := path_rotate guideLine lineAngle (0, 0) in
  let guideLine := path_moveRelative guideLine filletCenter in
  match slopeIntersectionPoint line guideLine with
  | Some intersectionPoint =>
      Some (mkFilletResult
              (angle_toDegrees (angle_ofPointInRadians filletCenter intersectionPoint))
              (set_prop (path context) (propertyName context) (VPoint intersectionPoint)))
  | None => None
  end.

(** fillet.ts, lines 188-191: the dispatch on the type of [context.path];
    [result] stays null when the map has no entry for the type. *)
Definition filletResultOf (context : IMatchPointProperty) (o : IPath)
    (filletCenter : IPoint) : option IFilletResult :=
  match o with
  | Arc _ _ _ _ => arcFilletResult context o filletCenter
  | Line _ _ => lineFilletResult context o filletCenter
  | _ => None
  end.

(** fillet.ts, lines 144-209. *)
Definition getFilletResult (context : IMatchPointProperty) (filletRadius : Q)
    (filletCenter : IPoint) : M (option IFilletResult) :=
  let* o := deref (path context) in
  let result := filletResultOf context o filletCenter in
  match result with
  | Some result =>
      (* temporarily clip the path *)
      let* originalValue := get_prop (path context) (propertyName context) in
      let* _ := clipPath result in
      (* don't allow a fillet which eliminates the path *)
      let* clipped := deref (path context) in
      let result :=
        if Qeq_bool (measure_pathLength clipped) 0 then None else Some result in
      (* revert the clipping *)
      let* _ := set_prop (path context) (propertyName context) originalValue in
      ret result
  | None => ret None
  end.

(** fillet.ts, lines 231-237, one turn of the loop: the index-[i] match
    with its shard point filled in, or [None] for [return null]. *)
Definition shard (shardCircle : IPath) (m : IMatchPointProperty)
  : M (option IMatchPointProperty) :=
  let* o := deref (path m) in
  match intersection (Some shardCircle) (Some o) with
  | None => ret None
  | Some shardCircleIntersection =>
      ret (Some (with_shardPoint m (intersectionPoints shardCircleIntersection !! 0%nat)))
  end.

(** fillet.ts, lines 251-258: [intersectionPoints[0]] when the array has
    length 1, the closest point otherwise. *)
Definition chooseCenter (commonPoint : IPoint) (intersectionPoint : IPathIntersection)
  : IPoint :=
  match intersectionPoints intersectionPoint with
  | [center] => center
  | points => point_closest commonPoint points
  end.

(** fillet.ts, lines 270-288. *)
Definition assemble (center : IPoint) (filletRadius : Q) (results0 results1 : IFilletResult)
  : M (option IPath) :=
  let filletArc := Arc center filletRadius (filletAngle results0) (filletAngle results1) in
  let filletSpan := measure_arcAngle filletArc in
  (* the algorithm is only valid for fillet less than 180 degrees *)
  if Qeq_bool filletSpan 180 then ret None
  else
    let filletArc :=
      if Qgt_bool filletSpan 180 then
        (* swap to make smallest angle *)
        let filletArc := write_prop filletArc "startAngle" (VNumber (filletAngle results1)) in
        write_prop filletArc "endAngle" (VNumber (filletAngle results0))
      else filletArc in
    (* clip the paths and return the fillet arc *)
    let* _ := clipPath results0 in
    let* _ := clipPath results1 in
    ret (Some filletArc).

(** fillet.ts, lines 218-293.  The three two-turn loops are unrolled. *)
Definition fillet (path1 path2 : option loc) (filletRadius : Q) : M (option IPath) :=
  match path1, path2 with
  | Some path1, Some path2 =>
    if truthy filletRadius && Qgt_bool filletRadius 0 then
      (* first find the common point *)
      let? (commonProperty0, commonProperty1) := getMatchingPointProperties path1 path2 in
      let shardCircle := Circle (point commonProperty0) filletRadius in
      (* get shard circle intersection points *)
      let? commonProperty0 := shard shardCircle commonProperty0 in
      let? commonProperty1 := shard shardCircle commonProperty1 in
      (* get "parallel" guidelines *)
      let* guidePaths0 :=
        getGuidePath commonProperty0 filletRadius (shardPoint commonProperty1) in
      let* guidePaths1 :=
        getGuidePath commonProperty1 filletRadius (shardPoint commonProperty0) in
      (* the center of the fillet is the point where the guidelines intersect *)
      let? intersectionPoint := ret (intersection guidePaths0 guidePaths1) in
      let center := chooseCenter (point commonProperty0) intersectionPoint in
      (* get the angles of the fillet and a function which clips the path *)
      let? results0 := getFilletResult commonProperty0 filletRadius center in
      let? results1 := getFilletResult commonProperty1 filletRadius center in
      assemble center filletRadius results0 results1
    else ret None
  | _, _ => ret None
  end.

End Fillet.

(** ** The angular span of an arc *)

(** [d] brought into the half-open interval from 0 to 360. *)
Definition normalize360 (d : Q) : Q := d - 360 * inject_Z (Qfloor (d / 360)).

(** Modelled from the spec: [measure.arcAngle] is defined outside
    fillet.ts.  The spec gives "arc-angular-span(arc) → scalar in
    [0°,360°)", "the absolute sweep, normalized to [0°,360°)": the sweep
    from [startAngle] to [endAngle], normalised. *)
Definition arcAngle_spec (arc : IPath) : Q :=
  match arc with
  | Arc _ _ startAngle endAngle => normalize360 (endAngle - startAngle)
  | _ => 0
  end.

(** ** Endpoint matching, as the specification words it *)

(** The four pairings in their priority order. *)
Definition pairings : list (nat * nat) :=
  [ (0, 0); (0, 1); (1, 0); (1, 1) ]%nat.

(** The first pairing, in priority order, whose two endpoints are equal
    under the rounded comparison [eq]. *)
Definition first_match (eq : IPoint → IPoint → bool)
    (ends1 ends2 : list IPointProperty) : option (nat * nat) :=
  List.find
    (λ ij, match ends1 !! fst ij, ends2 !! snd ij with
           | Some p1, Some p2 => eq (pp_point p1) (pp_point p2)
           | _, _ => false
           end)
    pairings.

(** ** The nearest of several points *)

(** The square of the distance between two points; distances compare as
    their squares do. *)
Definition dist2 (p q : IPoint) : Q :=
  (fst p - fst q) * (fst p - fst q) + (snd p - snd q) * (snd p - snd q).

(** Modelled from the spec: [point.closest] is defined outside fillet.ts.
    The spec gives "closest(reference, candidates) → Point" and "choose
    the one closest (by distance)": the result is one of the candidates
    and no candidate is nearer to the reference. *)
Definition closest_spec (closest : IPoint → list IPoint → IPoint) : Prop :=
  ∀ reference candidates, candidates ≠ [] →
    closest reference candidates ∈ candidates ∧
    ∀ q, q ∈ candidates →
         dist2 reference (closest reference candidates) <= dist2 reference q.

(** ** An exact instance of the geometry library

    On axis-parallel segments and on angles that are multiples of 90
    degrees the geometry needs no square roots and no trigonometry, so
    the library functions can be given exactly over [Q].  Outside that
    domain the functions below return a fixed fallback; the instance
    serves to run the core on concrete scenarios. *)
Module AxisGeometry.

Definition padd (p q : IPoint) : IPoint := (fst p + fst q, snd p + snd q).
Definition psub (p q : IPoint) : IPoint := (fst p - fst q, snd p - snd q).
Definition pscale (k : Q) (p : IPoint) : IPoint := (k * fst p, k * snd p).
Definition cross (p q : IPoint) : Q := fst p * snd q - snd p * fst q.
Definition Qabs' (x : Q) : Q := if Qle_bool 0 x then x else - x.

(** (cos a, sin a) for [a] a multiple of 90 degrees. *)
Definition unit_of_degrees (a : Q) : IPoint :=
  let n := normalize360 a in
  if Qeq_bool n 0 then (1, 0)
  else if Qeq_bool n 90 then (0, 1)
  else if Qeq_bool n 180 then (-1, 0)
  else if Qeq_bool n 270 then (0, -1)
  else (0, 0).

(** The direction of an axis-parallel vector in quarter turns, counted
    from the positive x axis into (-2, 2]. *)
Definition quarter_turns (d : IPoint) : Q :=
  if Qeq_bool (snd d) 0 then (if Qle_bool 0 (fst d) then 0 else 2)
  else if Qeq_bool (fst d) 0 then (if Qle_bool 0 (snd d) then 1 else -1)
  else 0.

Definition fromArc (arc : IPath) : IPoint * IPoint :=
  match arc with
  | Arc c r s e => (padd c (pscale r (unit_of_degrees s)),
                    padd c (pscale r (unit_of_degrees e)))
  | _ => ((0, 0), (0, 0))
  end.

Definition areEqualRounded (p q : IPoint) : bool :=
  Qeq_bool (fst p) (fst q) && Qeq_bool (snd p) (snd q).

Definition closest (p : IPoint) (points : list IPoint) : IPoint :=
  match points with
  | [] => p
  | q :: rest =>
      fold_left (λ best c, if Qle_bool (dist2 p best) (dist2 p c) then best else c)
        rest q
  end.

Definition ofLineInDegrees (line : IPath) : Q :=
  match line with
  | Line o e =>
      let q := quarter_turns (psub e o) in
      if Qle_bool 0 q then 90 * q else 90 * q + 360
  | _ => 0
  end.

(** Radians are given as multiples of pi. *)
Definition ofPointInRadians (p q : IPoint) : Q := quarter_turns (psub q p) / 2.
Definition toDegrees (x : Q) : Q := x * 180.

Definition breakAt (o : IPath) (pt : option IPoint) : IPath * option IPath :=
  match o, pt with
  | Line a b, Some p => (Line a p, Some (Line p b))
  | Arc c r s e, Some p =>
      let a := 90 * quarter_turns (psub p c) in
      (Arc c r s a, Some (Arc c r a e))
  | _, _ => (o, None)
  end.

Definition isArcConcaveTowardsPoint (arc : IPath) (p : option IPoint) : bool :=
  match arc, p with
  | Arc c r _ _, Some p => Qgt_bool (r * r) (dist2 p c)
  | _, _ => false
  end.

(** Lengths of arcs and circles are given up to the factor pi / 180,
    which does not change whether a length is zero. *)
Definition pathLength (o : IPath) : Q :=
  match o with
  | Line a b => let d := psub b a in Qabs' (fst d) + Qabs' (snd d)
  | Circle _ r => 360 * r
  | Arc _ r _ _ => r * arcAngle_spec o
  end.

Definition Parallel (line : IPath) (distance : Q) (nearPoint : option IPoint) : IPath :=
  match line, nearPoint with
  | Line a b, Some n =>
      if Qeq_bool (snd a) (snd b) then
        let dy := if Qgt_bool (snd n) (snd a) then distance else - distance in
        Line (padd a (0, dy)) (padd b (0, dy))
      else if Qeq_bool (fst a) (fst b) then
        let dx := if Qgt_bool (fst n) (fst a) then distance else - distance in
        Line (padd a (dx, 0)) (padd b (dx, 0))
      else line
  | _, _ => line
  end.

Definition rotatePoint (p : IPoint) (angle : Q) (pivot : IPoint) : IPoint :=
  let cs := unit_of_degrees angle in
  let d := psub p pivot in
  padd pivot (fst cs * fst d - snd cs * snd d, snd cs * fst d + fst cs * snd d).

Definition rotate (o : IPath) (angle : Q) (pivot : IPoint) : IPath :=
  match o with
  | Line a b => Line (rotatePoint a angle pivot) (rotatePoint b angle pivot)
  | Circle c r => Circle (rotatePoint c angle pivot) r
  | Arc c r s e => Arc (rotatePoint c angle pivot) r (s + angle) (e + angle)
  end.

Definition moveRelative (o : IPath) (delta : IPoint) : IPath :=
  match o with
  | Line a b => Line (padd a delta) (padd b delta)
  | Circle c r => Circle (padd c delta) r
  | Arc c r s e => Arc (padd c delta) r s e
  end.

(** The meeting point of the carrier lines of two segments. *)
Definition slopeIntersection (l1 l2 : IPath) : option IPoint :=
  match l1, l2 with
  | Line p p', Line q q' =>
      let r := psub p' p in
      let s := psub q' q in
      let den := cross r s in
      if Qeq_bool den 0 then None
      else Some (padd p (pscale (cross (psub q p) s / den) r))
  | _, _ => None
  end.

Definition between (a x b : Q) : bool :=
  (Qle_bool a x && Qle_bool x b) || (Qle_bool b x && Qle_bool x a).

Definition onSegment (p : IPoint) (line : IPath) : bool :=
  match line with
  | Line a b => between (fst a) (fst p) (fst b) && between (snd a) (snd p) (snd b)
                && Qeq_bool (cross (psub b a) (psub p a)) 0
  | _ => false
  end.

(** Segment with segment, and a circle with a segment whose carrier line
    passes through the circle's centre; null for other pairs. *)
Definition intersect (a b : option IPath) : option IPathIntersection :=
  match a, b with
  | Some (Line p p'), Some (Line q q') =>
      match slopeIntersection (Line p p') (Line q q') with
      | Some x => if onSegment x (Line p p') && onSegment x (Line q q')
                  then Some (mkIntersection [x]) else None
      | None => None
      end
  | Some (Circle c r), Some (Line p p') =>
      if Qeq_bool (cross (psub p' p) (psub c p)) 0 then
        let u := unit_of_degrees (ofLineInDegrees (Line p p')) in
        let hits := List.filter (λ x, onSegment x (Line p p'))
                      [ padd c (pscale r u); psub c (pscale r u) ] in
        match hits with
        | [] => None
        | _ => Some (mkIntersection hits)
        end
      else None
  | _, _ => None
  end.

#[export] Instance geometry : Collaborators := {|
  point_fromArc := fromArc;
  point_areEqualRounded := areEqualRounded;
  point_closest := closest;
  breakAtPoint := breakAt;
  measure_isArcConcaveTowardsPoint := isArcConcaveTowardsPoint;
  measure_pathLength := pathLength;
  measure_arcAngle := arcAngle_spec;
  paths_Parallel := Parallel;
  angle_ofLineInDegrees := ofLineInDegrees;
  angle_toDegrees := toDegrees;
  angle_ofPointInRadians := ofPointInRadians;
  path_rotate := rotate;
  path_moveRelative := moveRelative;
  slopeIntersectionPoint := slopeIntersection;
  intersection := intersect
|}.

(** The corner of the specification's scenarios: a horizontal and a
    vertical segment that meet at (10, 0). *)
Definition corner : store :=
  <[ 1%nat := Line (0, 0) (10, 0) ]> (<[ 2%nat := Line (10, 0) (10, 10) ]> ∅).

(** The arc that a call returned, for reading off a computed result. *)
Definition returned (out : completion (option IPath) * store) : IPath :=
  match fst out with
  | Normal (Some arc) => arc
  | _ => Circle (0, 0) 0
  end.

(** The outcome that a call of [getFilletResult] kept. *)
Definition kept (out : completion (option IFilletResult) * store) : IFilletResult :=
  match fst out with
  | Normal (Some res) => res
  | _ => mkFilletResult 0 (ret tt)
  end.

(** A half circle of radius 5 about the origin, and its end at
    (-5, 0) as the matched endpoint. *)
Definition halfCircle : store := {[ 1%nat := Arc (0, 0) 5 0 180 ]}.
Definition halfCircleEnd : IMatchPointProperty :=
  mkMatch 1%nat false "endAngle" (-5, 0) (Some (0, 5)).

(** The corner with its first path replaced by a circle. *)
Definition circleCorner : store := <[ 1%nat := Circle (0, 0) 1 ]> corner.

End AxisGeometry.


(** ** Vocabulary of the statements *)

(** The type tag of an object: the constructor it was built with. *)
Definition same_type (o o' : IPath) : Prop :=
  match o, o' with
  | Line _ _, Line _ _ | Circle _ _, Circle _ _ | Arc _ _ _ _, Arc _ _ _ _ => True
  | _, _ => False
  end.

(** A computation that leaves every store as it found it. *)
Definition readonly {A} (c : M A) : Prop := ∀ s, snd (c s) = s.

(** [l[name] = v] as a function on stores. *)
Definition overwrite (l : loc) (name : string) (v : value) (s : store) : store :=
  alter (λ o, write_prop o name v) l s.

(** The match record that [makeMatch] builds for endpoint [i] of the
    path at [l]. *)
Definition matchOf (l : loc) (ends : list IPointProperty) (i : nat)
  : option IMatchPointProperty :=
  match ends !! i with
  | Some p => Some (mkMatch l (Nat.eqb i 0) (pp_propertyName p) (pp_point p) None)
  | None => None
  end.

(** Endpoint matching as the specification words it: the pair of match
    records of the first pairing that coincides, or nothing. *)
Definition matching_spec (eq : IPoint → IPoint → bool) (l1 l2 : loc)
    (ends1 ends2 : list IPointProperty)
  : option (IMatchPointProperty * IMatchPointProperty) :=
  match first_match eq ends1 ends2 with
  | Some (i1, i2) =>
      match matchOf l1 ends1 i1, matchOf l2 ends2 i2 with
      | Some m1, Some m2 => Some (m1, m2)
      | _, _ => None
      end
  | None => None
  end.

(** The path types for which the core has dispatch entries. *)
Definition lineOrArc (o : IPath) : Prop :=
  match o with
  | Line _ _ | Arc _ _ _ _ => True
  | Circle _ _ => False
  end.

(** The endpoint fields of the path types that the core handles: the
    start and the end field of a [Line] and of an [Arc]. *)
Definition endpointField (o : IPath) (start : bool) : option string :=
  match o with
  | Line _ _ => Some (if start then "origin" else "end")
  | Arc _ _ _ _ => Some (if start then "startAngle" else "endAngle")
  | Circle _ _ => None
  end.

(** [v] is a value of the type that the endpoint fields of [o] hold: a
    point for a line, a number for an arc. *)
Definition fits (o : IPath) (v : value) : Prop :=
  match o, v with
  | Line _ _, VPoint _ | Arc _ _ _ _, VNumber _ => True
  | _, _ => False
  end.


(** The intermediate values of a call of [fillet] that passed every
    stage before the assembly of the arc. *)
Record trace : Type := mkTrace {
  matched0 : IMatchPointProperty;      (* commonProperty[0] as matched *)
  matched1 : IMatchPointProperty;
  common0 : IMatchPointProperty;       (* ... with its shard point *)
  common1 : IMatchPointProperty;
  guide0 : option IPath;               (* guidePaths[0] *)
  guide1 : option IPath;
  guideHits : IPathIntersection;       (* intersection of the guides *)
  outcome0 : IFilletResult;            (* results[0] *)
  outcome1 : IFilletResult
}.

Section Stages.
Context `{Collaborators}.

Definition center (t : trace) : IPoint :=
  chooseCenter (point (common0 t)) (guideHits t).

(** [t] records the first stages of a call on store [s] with paths [l1],
    [l2] and radius [r], up to the two guide paths: each stage produced
    the recorded value and left the store as it was. *)
Record guided (s : store) (l1 l2 : loc) (r : Q) (t : trace) : Prop := {
  st_guard : truthy r && Qgt_bool r 0 = true;
  st_match :
    getMatchingPointProperties l1 l2 s = (Normal (Some (matched0 t, matched1 t)), s);
  st_shard0 :
    shard (Circle (point (matched0 t)) r) (matched0 t) s = (Normal (Some (common0 t)), s);
  st_shard1 :
    shard (Circle (point (matched0 t)) r) (matched1 t) s = (Normal (Some (common1 t)), s);
  st_guide0 :
    getGuidePath (common0 t) r (shardPoint (common1 t)) s = (Normal (guide0 t), s);
  st_guide1 :
    getGuidePath (common1 t) r (shardPoint (common0 t)) s = (Normal (guide1 t), s)
}.

(** [t] records all stages before the assembly: the guides meet and both
    sides have an outcome. *)
Record stages (s : store) (l1 l2 : loc) (r : Q) (t : trace) : Prop := {
  st_guided : guided s l1 l2 r t;
  st_hits : intersection (guide0 t) (guide1 t) = Some (guideHits t);
  st_outcome0 :
    getFilletResult (common0 t) r (center t) s = (Normal (Some (outcome0 t)), s);
  st_outcome1 :
    getFilletResult (common1 t) r (center t) s = (Normal (Some (outcome1 t)), s)
}.

End Stages.

Section Guides.
Context `{Collaborators}.

(** The guide of an arc as the specification words it: break the arc at
    the side's own shard point, keep the start half when [isStart], else
    the end half; if that half is concave towards [nearPoint] the guide
    radius is [radius - filletRadius], otherwise [radius + filletRadius];
    centre and angles are the original's.  No half, no guide. *)
Definition arcGuide (m : IMatchPointProperty) (filletRadius : Q)
    (nearPoint : option IPoint) (c : IPoint) (radius startAngle endAngle : Q)
  : option IPath :=
  let halves := breakAtPoint (Arc c radius startAngle endAngle) (shardPoint m) in
  let kept := if isStart m then Some (fst halves) else snd halves in
  match kept with
  | Some half =>
      Some (Arc c (if measure_isArcConcaveTowardsPoint half nearPoint
                   then radius - filletRadius
                   else radius + filletRadius) startAngle endAngle)
  | None => None
  end.

End Guides.

Section Sides.
Context `{Collaborators}.

(** What a recorded call establishes about one side: the path at [l] is
    the object [o]; [m] is its match record and [cp] the same record with
    the shard point; the side's outcome [res] writes [v] to the matched
    endpoint field, and the object so clipped has a length other than
    zero. *)
Record side (s : store) (l : loc) (m cp : IMatchPointProperty) (c : IPoint)
    (res : IFilletResult) (o : IPath) (v : value) : Prop := {
  sd_object : s !! l = Some o;
  sd_path : path cp = l;
  sd_name : propertyName cp = propertyName m;
  sd_start : isStart cp = isStart m;
  sd_point : point cp = point m;
  sd_field : endpointField o (isStart m) = Some (propertyName m);
  sd_result : filletResultOf cp o c = Some res;
  sd_clip : clipPath res = set_prop l (propertyName m) v;
  sd_fits : fits o v;
  sd_length : Qeq_bool (measure_pathLength (write_prop o (propertyName m) v)) 0 = false
}.

End Sides.

Section Endpoints.
Context `{Collaborators}.

(** The point at the start or at the end of a path, as
    [getPointProperties] reads it: the [origin] or [end] of a line, the
    first or second point of [point.fromArc] for an arc.  Other types
    have no endpoints. *)
Definition endpointPoint (o : IPath) (start : bool) : option IPoint :=
  match o with
  | Line origin end_ => Some (if start then origin else end_)
  | Arc _ _ _ _ =>
      Some (if start then fst (point_fromArc o) else snd (point_fromArc o))
  | Circle _ _ => None
  end.

(** fillet.ts, lines 168-174: the perpendicular to [line] through
    [filletCenter], built by rotating a vertical unit segment by the
    line's angle and moving it to the centre. *)
Definition perpendicularThrough (line : IPath) (filletCenter : IPoint) : IPath :=
  path_moveRelative
    (path_rotate (Line (0, 0) (0, 1)) (angle_ofLineInDegrees line) (0, 0))
    filletCenter.

End Endpoints.

(** ** Further scenes for the exact instance *)
Module Scenes.
Import AxisGeometry.

(** Two unit segments far from each other. *)
Definition apart : store :=
  <[ 1%nat := Line (0, 0) (1, 0) ]> (<[ 2%nat := Line (5, 5) (6, 5) ]> ∅).

(** The value a stage produced, for reading off a computed result. *)
Definition produced {A} (d : A) (out : completion (option A) * store) : A :=
  match fst out with
  | Normal (Some a) => a
  | _ => d
  end.

Definition noMatch : IMatchPointProperty := mkMatch 0%nat false "" (0, 0) None.

(** The stages of [fillet] on the corner with radius 2, run one by one. *)
Definition cornerMatch : IMatchPointProperty * IMatchPointProperty :=
  produced (noMatch, noMatch) (getMatchingPointProperties 1%nat 2%nat corner).

Definition cornerTrace : trace :=
  let m0 := fst cornerMatch in
  let m1 := snd cornerMatch in
  let probe := Circle (point m0) 2 in
  let cp0 := produced noMatch (shard probe m0 corner) in
  let cp1 := produced noMatch (shard probe m1 corner) in
  let g0 := fst (getGuidePath cp0 2 (shardPoint cp1) corner) in
  let g1 := fst (getGuidePath cp1 2 (shardPoint cp0) corner) in
  let g0 := match g0 with Normal g => g | Throw _ => None end in
  let g1 := match g1 with Normal g => g | Throw _ => None end in
  let hits := default (mkIntersection []) (intersection g0 g1) in
  let c := chooseCenter (point cp0) hits in
  mkTrace m0 m1 cp0 cp1 g0 g1 hits
    (kept (getFilletResult cp0 2 c corner))
    (kept (getFilletResult cp1 2 c corner)).

End Scenes.

(** * Properties *)

(** ** Property writes *)

(** Writing a value and then writing back what was read before restores
    the object. *)
Lemma write_prop_revert (o : IPath) (name : string) (v : value) :
  write_prop (write_prop o name v) name (read_prop o name) = o.
Proof.
  destruct o, v; simpl;
    repeat match goal with
      | |- context [String.eqb name ?k] =>
          let E := fresh "E" in
          destruct (String.eqb name k) eqn:E; simpl; rewrite ?E; simpl
      end;
    repeat match goal with
      | E : String.eqb name _ = true |- _ => apply String.eqb_eq in E; subst
      end;
    try reflexivity; try discriminate.
Qed.

(** A write changes no property but the one it names. *)
Lemma read_write_other (o : IPath) (name name' : string) (v : value) :
  name' ≠ name → read_prop (write_prop o name v) name' = read_prop o name'.
Proof.
  intros Hne.
  destruct o, v; simpl; try reflexivity;
    repeat match goal with
      | |- context [String.eqb name ?k] =>
          let E := fresh "E" in
          destruct (String.eqb name k) eqn:E;
          [ apply String.eqb_eq in E; subst name | ]; simpl
      end;
    try reflexivity;
    repeat match goal with
      | |- context [String.eqb name' ?k] =>
          let E := fresh "E" in
          destruct (String.eqb name' k) eqn:E;
          [ apply String.eqb_eq in E; subst name' | ]; simpl
      end;
    try reflexivity; try congruence.
Qed.

Lemma write_prop_same_type (o : IPath) (name : string) (v : value) :
  same_type o (write_prop o name v).
Proof.
  destruct o, v; simpl; try exact I;
    repeat match goal with
      | |- context [String.eqb name ?k] => destruct (String.eqb name k)
      end; exact I.
Qed.


(** Writing the same value twice is writing it once. *)
Lemma write_prop_idem (o : IPath) (name : string) (v : value) :
  write_prop (write_prop o name v) name v = write_prop o name v.
Proof.
  destruct o, v; simpl; try reflexivity;
    repeat match goal with
      | |- context [String.eqb name ?k] =>
          let E := fresh "E" in
          destruct (String.eqb name k) eqn:E; simpl; rewrite ?E; simpl
      end;
    repeat match goal with
      | E : String.eqb name _ = true |- _ => apply String.eqb_eq in E; subst
      end;
    try reflexivity; try discriminate.
Qed.

Lemma same_type_refl (o : IPath) : same_type o o.
Proof. destruct o; exact I. Qed.

Lemma same_type_trans (a b c : IPath) : same_type a b → same_type b c → same_type a c.
Proof. destruct a, b, c; simpl; tauto. Qed.

(** ** Numbers *)

Lemma guard_iff (r : Q) : truthy r && Qgt_bool r 0 = true ↔ 0 < r.
Proof.
  unfold truthy, Qgt_bool.
  rewrite andb_true_iff, !negb_true_iff.
  split.
  - intros [_ Hle]. apply Qnot_le_lt. intros Hle'.
    apply Qle_bool_iff in Hle'. congruence.
  - intros Hlt. split.
    + destruct (Qeq_bool r 0) eqn:E; [|reflexivity].
      apply Qeq_bool_eq in E. lra.
    + destruct (Qle_bool r 0) eqn:E; [|reflexivity].
      apply Qle_bool_iff in E. lra.
Qed.







(** ** The monad *)

Lemma readonly_ret {A} (a : A) : readonly (ret a).
Proof. intros s. reflexivity. Qed.

Lemma readonly_deref (l : loc) : readonly (deref l).
Proof. intros s. unfold deref. destruct (s !! l); reflexivity. Qed.

Lemma readonly_bind {A B} (c : M A) (k : A → M B) :
  readonly c → (∀ a, readonly (k a)) → readonly (bind c k).
Proof.
  intros Hc Hk s. unfold bind. specialize (Hc s).
  destruct (c s) as [[a|e] s1]; simpl in *; subst.
  - apply Hk.
  - reflexivity.
Qed.

Lemma readonly_eq {A} (c : M A) (s s' : store) (r : completion A) :
  readonly c → c s = (r, s') → s' = s.
Proof. intros Hc E. specialize (Hc s). rewrite E in Hc. exact Hc. Qed.

Lemma bind_Normal {A B} (c : M A) (k : A → M B) (s : store) (a : A) (s1 : store) :
  c s = (Normal a, s1) → bind c k s = k a s1.
Proof. intros E. unfold bind. rewrite E. reflexivity. Qed.

Lemma bind_Throw {A B} (c : M A) (k : A → M B) (s : store) (e : exn) (s1 : store) :
  c s = (Throw e, s1) → bind c k s = (Throw e, s1).
Proof. intros E. unfold bind. rewrite E. reflexivity. Qed.

Lemma deref_Some (l : loc) (s : store) (o : IPath) :
  s !! l = Some o → deref l s = (Normal o, s).
Proof. intros E. unfold deref. rewrite E. reflexivity. Qed.

Lemma set_prop_Some (l : loc) (name : string) (v : value) (s : store) (o : IPath) :
  s !! l = Some o →
  set_prop l name v s = (Normal tt, <[l := write_prop o name v]> s).
Proof. intros E. unfold set_prop. rewrite E. reflexivity. Qed.

Lemma set_prop_overwrite (l : loc) (name : string) (v : value) (s : store) (o : IPath) :
  s !! l = Some o →
  set_prop l name v s = (Normal tt, overwrite l name v s).
Proof.
  intros E. rewrite (set_prop_Some _ _ _ _ _ E). f_equal.
  unfold overwrite. apply map_eq. intros i.
  rewrite lookup_insert, lookup_alter.
  destruct (decide (l = i)) as [->|]; [rewrite E|]; reflexivity.
Qed.

Lemma lookup_overwrite (l : loc) (name : string) (v : value) (s : store) (i : loc) :
  overwrite l name v s !! i =
    if decide (l = i) then (λ o, write_prop o name v) <$> s !! i else s !! i.
Proof.
  unfold overwrite. rewrite lookup_alter.
  destruct (decide (l = i)) as [->|]; reflexivity.
Qed.

(** Two property writes change nothing but the two properties written. *)
Lemma overwrite_twice_frame (l1 l2 : loc) (n0 n1 : string) (v0 v1 : value)
    (s : store) (l : loc) (o : IPath) :
  s !! l = Some o →
  ∃ o', overwrite l2 n1 v1 (overwrite l1 n0 v0 s) !! l = Some o' ∧
        same_type o o' ∧
        ∀ name, ¬ (l = l1 ∧ name = n0) → ¬ (l = l2 ∧ name = n1) →
                read_prop o' name = read_prop o name.
Proof.
  intros Ho. rewrite !lookup_overwrite, Ho.
  destruct (decide (l2 = l)) as [->|Hl2], (decide (l1 = l)) as [->|Hl1]; simpl;
    eexists; (split; [reflexivity|]); split.
  - eapply same_type_trans; apply write_prop_same_type.
  - intros name H0 H1. rewrite !read_write_other; [reflexivity|..]; intros ->; tauto.
  - apply write_prop_same_type.
  - intros name _ H1. rewrite read_write_other; [reflexivity|]. intros ->; tauto.
  - apply write_prop_same_type.
  - intros name H0 _. rewrite read_write_other; [reflexivity|]. intros ->; tauto.
  - apply same_type_refl.
  - reflexivity.
Qed.

Section FilletProperties.
Context `{Collaborators}.

(** ** Endpoint matching *)

Lemma pointPropertiesOf_two (o : IPath) (ends : list IPointProperty) :
  pointPropertiesOf o = Some ends → ∃ a b, ends = [a; b].
Proof.
  destruct o; simpl; intros E; inversion E; eauto.
Qed.

(** The code's chain of four checks is the first match in priority
    order. *)
Lemma getMatchingPointProperties_run (l1 l2 : loc) (s : store) (o1 o2 : IPath)
    (ends1 ends2 : list IPointProperty) :
  s !! l1 = Some o1 → s !! l2 = Some o2 →
  pointPropertiesOf o1 = Some ends1 → pointPropertiesOf o2 = Some ends2 →
  getMatchingPointProperties l1 l2 s =
    (Normal (matching_spec point_areEqualRounded l1 l2 ends1 ends2), s).
Proof.
  intros Ho1 Ho2 He1 He2.
  unfold getMatchingPointProperties, getPointProperties.
  rewrite (bind_Normal _ _ s (Some ends1) s)
    by (rewrite (bind_Normal _ _ _ _ _ (deref_Some _ _ _ Ho1)), He1; reflexivity).
  rewrite (bind_Normal _ _ s (Some ends2) s)
    by (rewrite (bind_Normal _ _ _ _ _ (deref_Some _ _ _ Ho2)), He2; reflexivity).
  destruct (pointPropertiesOf_two _ _ He1) as (a1 & b1 & ->).
  destruct (pointPropertiesOf_two _ _ He2) as (a2 & b2 & ->).
  unfold matching_spec, first_match, check, makeMatch, matchOf, element, orElse.
  simpl.
  destruct (point_areEqualRounded (pp_point a1) (pp_point a2)); [reflexivity|].
  destruct (point_areEqualRounded (pp_point a1) (pp_point b2)); [reflexivity|].
  destruct (point_areEqualRounded (pp_point b1) (pp_point a2)); [reflexivity|].
  destruct (point_areEqualRounded (pp_point b1) (pp_point b2)); reflexivity.
Qed.

(** A path of any other type makes the first check raise. *)
Lemma getMatchingPointProperties_raise (l1 l2 : loc) (s : store) (o1 o2 : IPath) :
  s !! l1 = Some o1 → s !! l2 = Some o2 →
  pointPropertiesOf o1 = None ∨ pointPropertiesOf o2 = None →
  getMatchingPointProperties l1 l2 s = (Throw TypeError, s).
Proof.
  intros Ho1 Ho2 Hnone.
  unfold getMatchingPointProperties, getPointProperties.
  rewrite (bind_Normal _ _ s (pointPropertiesOf o1) s)
    by (rewrite (bind_Normal _ _ _ _ _ (deref_Some _ _ _ Ho1)); reflexivity).
  rewrite (bind_Normal _ _ s (pointPropertiesOf o2) s)
    by (rewrite (bind_Normal _ _ _ _ _ (deref_Some _ _ _ Ho2)); reflexivity).
  destruct (pointPropertiesOf o1) as [ends1|] eqn:He1.
  - destruct Hnone as [|He2]; [discriminate|]. rewrite He2.
    destruct (pointPropertiesOf_two _ _ He1) as (a1 & b1 & ->).
    reflexivity.
  - reflexivity.
Qed.

Lemma getMatchingPointProperties_unbound (l1 l2 : loc) (s : store) :
  s !! l1 = None ∨ s !! l2 = None →
  getMatchingPointProperties l1 l2 s = (Throw TypeError, s).
Proof.
  intros Hnone.
  unfold getMatchingPointProperties, getPointProperties.
  destruct (s !! l1) as [o1|] eqn:Ho1.
  - destruct Hnone as [|Ho2]; [discriminate|].
    rewrite (bind_Normal _ _ s (pointPropertiesOf o1) s)
      by (rewrite (bind_Normal _ _ _ _ _ (deref_Some _ _ _ Ho1)); reflexivity).
    unfold bind at 1. unfold bind at 1. unfold deref. rewrite Ho2. reflexivity.
  - unfold bind at 1. unfold bind at 1. unfold deref. rewrite Ho1. reflexivity.
Qed.

Lemma getMatchingPointProperties_Some (l1 l2 : loc) (s s' : store)
    (m0 m1 : IMatchPointProperty) :
  getMatchingPointProperties l1 l2 s = (Normal (Some (m0, m1)), s') →
  ∃ o1 o2 ends1 ends2,
    s !! l1 = Some o1 ∧ s !! l2 = Some o2 ∧
    pointPropertiesOf o1 = Some ends1 ∧ pointPropertiesOf o2 = Some ends2 ∧
    matching_spec point_areEqualRounded l1 l2 ends1 ends2 = Some (m0, m1).
Proof.
  intros E.
  destruct (s !! l1) as [o1|] eqn:Ho1;
    [|rewrite getMatchingPointProperties_unbound in E by auto; inversion E].
  destruct (s !! l2) as [o2|] eqn:Ho2;
    [|rewrite getMatchingPointProperties_unbound in E by auto; inversion E].
  destruct (pointPropertiesOf o1) as [ends1|] eqn:He1;
    [|rewrite (getMatchingPointProperties_raise _ _ _ _ _ Ho1 Ho2) in E by auto;
      inversion E].
  destruct (pointPropertiesOf o2) as [ends2|] eqn:He2;
    [|rewrite (getMatchingPointProperties_raise _ _ _ _ _ Ho1 Ho2) in E by auto;
      inversion E].
  rewrite (getMatchingPointProperties_run _ _ _ _ _ _ _ Ho1 Ho2 He1 He2) in E.
  inversion E. exists o1, o2, ends1, ends2. auto.
Qed.

(** The record built for an endpoint names the path it came from and the
    endpoint field of that path's type. *)
Lemma matchOf_Some (l : loc) (o : IPath) (ends : list IPointProperty) (i : nat)
    (m : IMatchPointProperty) :
  pointPropertiesOf o = Some ends → matchOf l ends i = Some m →
  path m = l ∧ shardPoint m = None ∧
  endpointField o (isStart m) = Some (propertyName m) ∧
  ends !! i = Some (mkPointProperty (point m) (propertyName m)).
Proof.
  intros He Hm. unfold matchOf in Hm.
  destruct o; simpl in He; inversion He; subst; clear He;
    destruct i as [|[|i]]; simpl in Hm; inversion Hm; subst; simpl; auto.
Qed.

Lemma matching_spec_Some (eq : IPoint → IPoint → bool) (l1 l2 : loc)
    (ends1 ends2 : list IPointProperty) (m0 m1 : IMatchPointProperty) :
  matching_spec eq l1 l2 ends1 ends2 = Some (m0, m1) →
  ∃ i1 i2, first_match eq ends1 ends2 = Some (i1, i2) ∧
           matchOf l1 ends1 i1 = Some m0 ∧ matchOf l2 ends2 i2 = Some m1.
Proof.
  unfold matching_spec.
  destruct (first_match eq ends1 ends2) as [[i1 i2]|]; [|discriminate].
  destruct (matchOf l1 ends1 i1) as [a|] eqn:Ha; [|discriminate].
  destruct (matchOf l2 ends2 i2) as [b|] eqn:Hb; [|discriminate].
  intros E. inversion E; subst. eauto.
Qed.

Lemma shard_Some (c : IPath) (m cp : IMatchPointProperty) (s s' : store) :
  shard c m s = (Normal (Some cp), s') →
  ∃ o hits, s !! path m = Some o ∧
            intersection (Some c) (Some o) = Some hits ∧
            cp = with_shardPoint m (intersectionPoints hits !! 0%nat).
Proof.
  unfold shard, bind, deref.
  destruct (s !! path m) as [o|]; [|intros E; inversion E].
  destruct (intersection (Some c) (Some o)) as [hits|] eqn:Hhits;
    intros E; inversion E; subst.
  exists o, hits. auto.
Qed.

(** ** The stages that only read *)

Lemma readonly_getPointProperties (l : loc) : readonly (getPointProperties l).
Proof.
  unfold getPointProperties. apply readonly_bind.
  - apply readonly_deref.
  - intros o. apply readonly_ret.
Qed.

Lemma readonly_getMatchingPointProperties (l1 l2 : loc) :
  readonly (getMatchingPointProperties l1 l2).
Proof.
  unfold getMatchingPointProperties.
  apply readonly_bind; [apply readonly_getPointProperties | intros p1].
  apply readonly_bind; [apply readonly_getPointProperties | intros p2].
  intros s. reflexivity.
Qed.

Lemma readonly_shard (c : IPath) (m : IMatchPointProperty) : readonly (shard c m).
Proof.
  unfold shard. apply readonly_bind; [apply readonly_deref | intros o].
  destruct (intersection _ _); apply readonly_ret.
Qed.

Lemma readonly_getGuidePath (m : IMatchPointProperty) (r : Q) (near : option IPoint) :
  readonly (getGuidePath m r near).
Proof.
  unfold getGuidePath. apply readonly_bind; [apply readonly_deref | intros o].
  destruct o; try apply readonly_ret.
  destruct (if isStart m then _ else _); apply readonly_ret.
Qed.

(** ** The tangent resolver clips, measures and reverts *)

(** The outcomes that the two dispatch entries build clip the matched
    property of the context's own path. *)
Lemma arcFilletResult_clip (m : IMatchPointProperty) (o : IPath) (c : IPoint)
    (res : IFilletResult) :
  arcFilletResult m o c = Some res →
  ∃ a, clipPath res = set_prop (path m) (propertyName m) (VNumber a).
Proof.
  unfold arcFilletResult. destruct o; try discriminate.
  intros E. inversion E; subst; simpl. eauto.
Qed.

Lemma lineFilletResult_clip (m : IMatchPointProperty) (o : IPath) (c : IPoint)
    (res : IFilletResult) :
  lineFilletResult m o c = Some res →
  ∃ p, clipPath res = set_prop (path m) (propertyName m) (VPoint p).
Proof.
  unfold lineFilletResult. destruct (slopeIntersectionPoint _ _); try discriminate.
  intros E. inversion E; subst; simpl. eauto.
Qed.

Lemma filletResultOf_clip (m : IMatchPointProperty) (o : IPath) (c : IPoint)
    (res : IFilletResult) :
  filletResultOf m o c = Some res →
  ∃ v, clipPath res = set_prop (path m) (propertyName m) v ∧ fits o v.
Proof.
  unfold filletResultOf. destruct o; try discriminate; intros E.
  - destruct (lineFilletResult_clip _ _ _ _ E) as [p Hp].
    exists (VPoint p). split; [exact Hp | exact I].
  - destruct (arcFilletResult_clip _ _ _ _ E) as [a Ha].
    exists (VNumber a). split; [exact Ha | exact I].
Qed.

(** [getFilletResult] on a store in which the context's path is the
    object [o], when the dispatch built the outcome [res] that writes
    [v]: the outcome is kept exactly when the clipped object has a length
    other than zero, and the store is the one the call started from. *)
Lemma getFilletResult_run (m : IMatchPointProperty) (r : Q) (c : IPoint)
    (s : store) (o : IPath) (res : IFilletResult) (v : value) :
  s !! path m = Some o →
  filletResultOf m o c = Some res →
  clipPath res = set_prop (path m) (propertyName m) v →
  getFilletResult m r c s =
    (Normal (if Qeq_bool (measure_pathLength (write_prop o (propertyName m) v)) 0
             then None else Some res), s).
Proof.
  intros Ho Hres Hclip.
  assert (Hclipped : <[path m := write_prop o (propertyName m) v]> s !! path m
                     = Some (write_prop o (propertyName m) v))
    by apply lookup_insert_eq.
  unfold getFilletResult, get_prop.
  rewrite (bind_Normal _ _ _ _ _ (deref_Some _ _ _ Ho)), Hres.
  rewrite (bind_Normal _ _ s (read_prop o (propertyName m)) s)
    by (rewrite (bind_Normal _ _ _ _ _ (deref_Some _ _ _ Ho)); reflexivity).
  rewrite Hclip.
  rewrite (bind_Normal _ _ _ _ _ (set_prop_Some _ _ _ _ _ Ho)).
  rewrite (bind_Normal _ _ _ _ _ (deref_Some _ _ _ Hclipped)).
  rewrite (bind_Normal _ _ _ _ _ (set_prop_Some _ _ _ _ _ Hclipped)).
  rewrite insert_insert_eq, write_prop_revert, (insert_id s _ _ Ho).
  reflexivity.
Qed.

Lemma getFilletResult_null (m : IMatchPointProperty) (r : Q) (c : IPoint)
    (s : store) (o : IPath) :
  s !! path m = Some o →
  filletResultOf m o c = None →
  getFilletResult m r c s = (Normal None, s).
Proof.
  intros Ho Hres. unfold getFilletResult, bind, deref, ret.
  rewrite Ho, Hres. reflexivity.
Qed.

Lemma getFilletResult_unbound (m : IMatchPointProperty) (r : Q) (c : IPoint)
    (s : store) :
  s !! path m = None →
  getFilletResult m r c s = (Throw TypeError, s).
Proof.
  intros Ho. unfold getFilletResult, bind, deref. rewrite Ho. reflexivity.
Qed.

Lemma readonly_getFilletResult (m : IMatchPointProperty) (r : Q) (c : IPoint) :
  readonly (getFilletResult m r c).
Proof.
  intros s. destruct (s !! path m) as [o|] eqn:Ho.
  - destruct (filletResultOf m o c) as [res|] eqn:Hres.
    + destruct (filletResultOf_clip _ _ _ _ Hres) as (v & Hclip & _).
      rewrite (getFilletResult_run _ _ _ _ _ _ _ Ho Hres Hclip). reflexivity.
    + rewrite (getFilletResult_null _ _ _ _ _ Ho Hres). reflexivity.
  - rewrite (getFilletResult_unbound _ _ _ _ Ho). reflexivity.
Qed.

(** A kept outcome, read backwards. *)
Lemma getFilletResult_Some (m : IMatchPointProperty) (r : Q) (c : IPoint)
    (s s' : store) (res : IFilletResult) :
  getFilletResult m r c s = (Normal (Some res), s') →
  s' = s ∧
  ∃ o v, s !! path m = Some o ∧
         filletResultOf m o c = Some res ∧
         clipPath res = set_prop (path m) (propertyName m) v ∧
         fits o v ∧
         Qeq_bool (measure_pathLength (write_prop o (propertyName m) v)) 0 = false.
Proof.
  intros E. destruct (s !! path m) as [o|] eqn:Ho.
  - destruct (filletResultOf m o c) as [res'|] eqn:Hres.
    + destruct (filletResultOf_clip _ _ _ _ Hres) as (v & Hclip & Hfits).
      rewrite (getFilletResult_run _ _ _ _ _ _ _ Ho Hres Hclip) in E.
      destruct (Qeq_bool _ 0) eqn:Hlen; inversion E; subst.
      split; [reflexivity|]. exists o, v. auto.
    + rewrite (getFilletResult_null _ _ _ _ _ Ho Hres) in E. inversion E.
  - rewrite (getFilletResult_unbound _ _ _ _ Ho) in E. inversion E.
Qed.

(** ** The call as a whole *)

Ltac run_stage Hro :=
  match goal with
  | |- context [bind ?c _ ?s] =>
      let E := fresh "E" in
      let s1 := fresh "s" in
      let out := fresh "out" in
      destruct (c s) as [out s1] eqn:E;
      pose proof (readonly_eq _ _ _ _ Hro E); subst s1;
      destruct out as [? | []];
      [ rewrite (bind_Normal _ _ _ _ _ E)
      | rewrite (bind_Throw _ _ _ _ _ E); auto ]
  end.

(** Every call either returns null or raises with the store untouched,
    or passes all stages and ends in the assembly. *)
Lemma fillet_cases (p1 p2 : option loc) (r : Q) (s : store) :
  fillet p1 p2 r s = (Normal None, s) ∨
  fillet p1 p2 r s = (Throw TypeError, s) ∨
  ∃ l1 l2 t, p1 = Some l1 ∧ p2 = Some l2 ∧ stages s l1 l2 r t ∧
             fillet p1 p2 r s = assemble (center t) r (outcome0 t) (outcome1 t) s.
Proof.
  unfold fillet.
  destruct p1 as [l1|]; [|left; reflexivity].
  destruct p2 as [l2|]; [|left; reflexivity].
  destruct (truthy r && Qgt_bool r 0) eqn:Hguard; [|left; reflexivity].
  unfold bindO.
  run_stage (readonly_getMatchingPointProperties l1 l2).
  destruct a as [[m0 m1]|]; [|left; reflexivity].
  run_stage (readonly_shard (Circle (point m0) r) m0).
  destruct a as [cp0|]; [|left; reflexivity].
  run_stage (readonly_shard (Circle (point m0) r) m1).
  destruct a as [cp1|]; [|left; reflexivity].
  run_stage (readonly_getGuidePath cp0 r (shardPoint cp1)).
  rename a into g0.
  run_stage (readonly_getGuidePath cp1 r (shardPoint cp0)).
  rename a into g1.
  destruct (intersection g0 g1) as [ip|] eqn:Hip;
    [|left; reflexivity].
  rewrite (bind_Normal _ _ s (Some ip) s) by reflexivity.
  run_stage (readonly_getFilletResult cp0 r (chooseCenter (point cp0) ip)).
  destruct a as [res0|]; [|left; reflexivity].
  run_stage (readonly_getFilletResult cp1 r (chooseCenter (point cp0) ip)).
  destruct a as [res1|]; [|left; reflexivity].
  right; right.
  exists l1, l2, (mkTrace m0 m1 cp0 cp1 g0 g1 ip res0 res1).
  repeat split; assumption.
Qed.

Lemma stages_sides (s : store) (l1 l2 : loc) (r : Q) (t : trace) :
  stages s l1 l2 r t →
  ∃ o1 v0 o2 v1,
    side s l1 (matched0 t) (common0 t) (center t) (outcome0 t) o1 v0 ∧
    side s l2 (matched1 t) (common1 t) (center t) (outcome1 t) o2 v1.
Proof.
  intros [[_ Hm Hs0 Hs1 _ _] _ Hr0 Hr1].
  destruct (getMatchingPointProperties_Some _ _ _ _ _ _ Hm)
    as (o1 & o2 & ends1 & ends2 & Ho1 & Ho2 & He1 & He2 & Hspec).
  destruct (matching_spec_Some _ _ _ _ _ _ _ Hspec) as (i1 & i2 & _ & Hm0 & Hm1).
  destruct (matchOf_Some _ _ _ _ _ He1 Hm0) as (Hp0 & _ & Hf0 & _).
  destruct (matchOf_Some _ _ _ _ _ He2 Hm1) as (Hp1 & _ & Hf1 & _).
  destruct (shard_Some _ _ _ _ _ Hs0) as (? & ? & _ & _ & Hcp0).
  destruct (shard_Some _ _ _ _ _ Hs1) as (? & ? & _ & _ & Hcp1).
  destruct (getFilletResult_Some _ _ _ _ _ _ Hr0)
    as (_ & o1' & v0 & Ho1' & Hres0 & Hclip0 & Hfits0 & Hlen0).
  destruct (getFilletResult_Some _ _ _ _ _ _ Hr1)
    as (_ & o2' & v1 & Ho2' & Hres1 & Hclip1 & Hfits1 & Hlen1).
  rewrite Hcp0 in Ho1', Hclip0, Hlen0. simpl in Ho1', Hclip0, Hlen0.
  rewrite Hcp1 in Ho2', Hclip1, Hlen1. simpl in Ho2', Hclip1, Hlen1.
  rewrite Hp0, Ho1 in Ho1'. inversion Ho1'; subst o1'.
  rewrite Hp1, Ho2 in Ho2'. inversion Ho2'; subst o2'.
  rewrite Hp0 in Hclip0. rewrite Hp1 in Hclip1.
  exists o1, v0, o2, v1.
  split; constructor; try assumption; try (rewrite ?Hcp0, ?Hcp1; simpl; congruence).
Qed.

(** The assembly, for outcomes that clip bound paths. *)
Lemma assemble_run (c : IPoint) (r : Q) (res0 res1 : IFilletResult) (s : store)
    (l0 l1 : loc) (n0 n1 : string) (v0 v1 : value) (o0 o1 : IPath) :
  clipPath res0 = set_prop l0 n0 v0 → s !! l0 = Some o0 →
  clipPath res1 = set_prop l1 n1 v1 → s !! l1 = Some o1 →
  assemble c r res0 res1 s =
    let span := measure_arcAngle (Arc c r (filletAngle res0) (filletAngle res1)) in
    if Qeq_bool span 180 then (Normal None, s)
    else (Normal (Some (if Qgt_bool span 180
                        then Arc c r (filletAngle res1) (filletAngle res0)
                        else Arc c r (filletAngle res0) (filletAngle res1))),
          overwrite l1 n1 v1 (overwrite l0 n0 v0 s)).
Proof.
  intros Hc0 Ho0 Hc1 Ho1. unfold assemble. simpl.
  destruct (Qeq_bool _ 180); [reflexivity|].
  rewrite Hc0, Hc1.
  rewrite (bind_Normal _ _ _ _ _ (set_prop_overwrite _ _ _ _ _ Ho0)).
  assert (Ho1' : overwrite l0 n0 v0 s !! l1
                 = Some (if decide (l0 = l1) then write_prop o1 n0 v0 else o1)).
  { rewrite lookup_overwrite, Ho1. destruct (decide (l0 = l1)); reflexivity. }
  rewrite (bind_Normal _ _ _ _ _ (set_prop_overwrite _ _ _ _ _ Ho1')).
  destruct (Qgt_bool _ 180); reflexivity.
Qed.

(** The call as a whole, for a recorded trace. *)
Lemma fillet_guided (s : store) (l1 l2 : loc) (r : Q) (t : trace) :
  guided s l1 l2 r t →
  fillet (Some l1) (Some l2) r s =
    match intersection (guide0 t) (guide1 t) with
    | Some hits =>
        let center := chooseCenter (point (common0 t)) hits in
        bindO (getFilletResult (common0 t) r center) (λ results0,
        bindO (getFilletResult (common1 t) r center) (λ results1,
        assemble center r results0 results1)) s
    | None => (Normal None, s)
    end.
Proof.
  intros [Hg Hm Hs0 Hs1 Hg0 Hg1].
  unfold fillet. rewrite Hg. unfold bindO at 1.
  rewrite (bind_Normal _ _ _ _ _ Hm). unfold bindO at 1.
  rewrite (bind_Normal _ _ _ _ _ Hs0). unfold bindO at 1.
  rewrite (bind_Normal _ _ _ _ _ Hs1).
  rewrite (bind_Normal _ _ _ _ _ Hg0).
  rewrite (bind_Normal _ _ _ _ _ Hg1).
  destruct (intersection (guide0 t) (guide1 t)) as [hits|]; reflexivity.
Qed.

(** The three ways a call can end.  In the third the two writes are the
    only change to the store. *)
Lemma fillet_outcomes (p1 p2 : option loc) (r : Q) (s : store) :
  fillet p1 p2 r s = (Normal None, s) ∨
  fillet p1 p2 r s = (Throw TypeError, s) ∨
  ∃ l1 l2 t o1 v0 o2 v1,
    p1 = Some l1 ∧ p2 = Some l2 ∧ stages s l1 l2 r t ∧
    side s l1 (matched0 t) (common0 t) (center t) (outcome0 t) o1 v0 ∧
    side s l2 (matched1 t) (common1 t) (center t) (outcome1 t) o2 v1 ∧
    let a0 := filletAngle (outcome0 t) in
    let a1 := filletAngle (outcome1 t) in
    let span := measure_arcAngle (Arc (center t) r a0 a1) in
    Qeq_bool span 180 = false ∧
    fillet p1 p2 r s =
      (Normal (Some (if Qgt_bool span 180
                     then Arc (center t) r a1 a0
                     else Arc (center t) r a0 a1)),
       overwrite l2 (propertyName (matched1 t)) v1
         (overwrite l1 (propertyName (matched0 t)) v0 s)).
Proof.
  destruct (fillet_cases p1 p2 r s) as [E|[E|(l1 & l2 & t & -> & -> & Hst & E)]];
    [left; exact E | right; left; exact E |].
  destruct (stages_sides _ _ _ _ _ Hst) as (o1 & v0 & o2 & v1 & S0 & S1).
  rewrite (assemble_run _ _ _ _ _ _ _ _ _ _ _ _ _
             (sd_clip _ _ _ _ _ _ _ _ S0) (sd_object _ _ _ _ _ _ _ _ S0)
             (sd_clip _ _ _ _ _ _ _ _ S1) (sd_object _ _ _ _ _ _ _ _ S1)) in E.
  simpl in E.
  destruct (Qeq_bool _ 180) eqn:Hspan; [left; exact E|].
  right; right. exists l1, l2, t, o1, v0, o2, v1.
  repeat (split; [first [reflexivity | assumption]|]).
  exact E.
Qed.

(** ** Atomicity *)

(** C1.  Whenever [fillet] returns null, the store after the call is the
    store before it: no field of either path has changed.  This covers
    the calls in which a side's outcome was clipped onto its path for the
    length test and reverted. *)
Theorem fillet_null_leaves_paths_unchanged (p1 p2 : option loc) (r : Q)
    (s s' : store) :
  fillet p1 p2 r s = (Normal None, s') → s' = s.
Proof.
  intros E.
  destruct (fillet_outcomes p1 p2 r s)
    as [E'|[E'|(l1 & l2 & t & o1 & v0 & o2 & v1 & _ & _ & _ & _ & _ & _ & E')]];
    rewrite E' in E; inversion E; reflexivity.
Qed.

(** ** The returned arc *)

(** C3.  On success the returned object is an arc whose radius is the
    requested [filletRadius] itself. *)
Theorem fillet_radius_is_requested (p1 p2 : option loc) (r : Q)
    (s s' : store) (arc : IPath) :
  fillet p1 p2 r s = (Normal (Some arc), s') →
  ∃ c a b, arc = Arc c r a b.
Proof.
  intros E.
  destruct (fillet_outcomes p1 p2 r s)
    as [E'|[E'|(l1 & l2 & t & o1 & v0 & o2 & v1 & _ & _ & _ & _ & _ & _ & E')]];
    rewrite E' in E; inversion E.
  destruct (Qgt_bool _ 180); eauto.
Qed.


(** ** The tangent resolver on an arc *)

(** C4, as the code has it.  On an arc side the kept outcome clips the
    matched angle field to the angle of the line from the arc's centre to
    the fillet centre, without any offset.  The 180 degrees are added,
    when the arc is not concave towards the fillet centre, to the
    outcome's [filletAngle] only: the angle of the returned fillet arc. *)
Theorem arc_side_clips_to_guide_angle (m : IMatchPointProperty) (r : Q)
    (filletCenter : IPoint) (s s' : store) (c : IPoint) (rad sa ea : Q)
    (res : IFilletResult) :
  s !! path m = Some (Arc c rad sa ea) →
  getFilletResult m r filletCenter s = (Normal (Some res), s') →
  let guideLineAngle := angle_ofLineInDegrees (Line c filletCenter) in
  filletAngle res =
    (if measure_isArcConcaveTowardsPoint (Arc c rad sa ea) (Some filletCenter)
     then guideLineAngle else guideLineAngle + 180) ∧
  clipPath res s =
    (Normal tt, overwrite (path m) (propertyName m) (VNumber guideLineAngle) s) ∧
  (propertyName m = "startAngle" →
   snd (clipPath res s) !! path m = Some (Arc c rad guideLineAngle ea)) ∧
  (propertyName m = "endAngle" →
   snd (clipPath res s) !! path m = Some (Arc c rad sa guideLineAngle)).
Proof.
  intros Ho E.
  destruct (getFilletResult_Some _ _ _ _ _ _ E) as (-> & o & v & Ho' & Hres & _).
  rewrite Ho in Ho'. inversion Ho'; subst o. clear Ho'.
  simpl in Hres. inversion Hres; subst res; clear Hres. simpl.
  rewrite (set_prop_overwrite _ _ _ _ _ Ho). simpl.
  split; [|split; [reflexivity|]].
  - destruct (measure_isArcConcaveTowardsPoint _ _); reflexivity.
  - split; intros Hn; rewrite lookup_overwrite, Ho, Hn;
      (destruct (decide (path m = path m)); [reflexivity | congruence]).
Qed.

(** ** The guide of an arc *)

(** C6.  For a path that is an arc, [getGuidePath] returns the guide the
    specification describes: a copy of the arc is broken at the side's
    own shard point and the start half is kept when [isStart], else the
    end half; if that half is concave towards [nearPoint] the guide radius
    is [radius - filletRadius], otherwise [radius + filletRadius]; the
    guide is a new arc with that radius and the centre, start angle and
    end angle of the original.  In a call of [fillet], [nearPoint] is the
    shard point of the other side. *)
Theorem arc_guide_radius (m : IMatchPointProperty) (r : Q) (nearPoint : option IPoint)
    (s : store) (c : IPoint) (rad sa ea : Q) :
  s !! path m = Some (Arc c rad sa ea) →
  getGuidePath m r nearPoint s = (Normal (arcGuide m r nearPoint c rad sa ea), s) ∧
  ∀ l1 l2 t, guided s l1 l2 r t →
    (m = common0 t → guide0 t = arcGuide m r (shardPoint (common1 t)) c rad sa ea) ∧
    (m = common1 t → guide1 t = arcGuide m r (shardPoint (common0 t)) c rad sa ea).
Proof.
  intros Ho.
  assert (Hrun : ∀ near, getGuidePath m r near s
                         = (Normal (arcGuide m r near c rad sa ea), s)).
  { intros near. unfold getGuidePath, arcGuide.
    rewrite (bind_Normal _ _ _ _ _ (deref_Some _ _ _ Ho)).
    unfold cloneAndBreakPath, cloneObject.
    destruct (if isStart m then _ else _); reflexivity. }
  split; [apply Hrun|].
  intros l1 l2 t Hg. split; intros ->.
  - pose proof (st_guide0 _ _ _ _ _ Hg) as E. rewrite Hrun in E. congruence.
  - pose proof (st_guide1 _ _ _ _ _ Hg) as E. rewrite Hrun in E. congruence.
Qed.

(** ** Endpoint matching *)

(** C5.  For two paths with endpoints [ends1] and [ends2], endpoint
    matching returns the match records of the first pairing, in the order
    (0,0), (0,1), (1,0), (1,1), whose points are equal under the rounded
    comparison; later pairings are not consulted.  When no pairing
    coincides it returns null, and [fillet] returns null with the store
    unchanged. *)
Theorem endpoint_matching_is_first_match (l1 l2 : loc) (s : store) (o1 o2 : IPath)
    (ends1 ends2 : list IPointProperty) :
  s !! l1 = Some o1 → s !! l2 = Some o2 →
  pointPropertiesOf o1 = Some ends1 → pointPropertiesOf o2 = Some ends2 →
  getMatchingPointProperties l1 l2 s =
    (Normal (matching_spec point_areEqualRounded l1 l2 ends1 ends2), s) ∧
  (first_match point_areEqualRounded ends1 ends2 = None →
   ∀ r, fillet (Some l1) (Some l2) r s = (Normal None, s)).
Proof.
  intros Ho1 Ho2 He1 He2.
  pose proof (getMatchingPointProperties_run _ _ _ _ _ _ _ Ho1 Ho2 He1 He2) as Hrun.
  split; [exact Hrun|].
  intros Hnone r. unfold fillet.
  destruct (truthy r && Qgt_bool r 0); [|reflexivity].
  unfold bindO at 1. rewrite (bind_Normal _ _ _ _ _ Hrun).
  unfold matching_spec. rewrite Hnone. reflexivity.
Qed.

(** ** The centre of the fillet *)

(** C7.  On success the centre of the returned arc is the point chosen
    among the points where the two guides meet, relative to the matched
    common point of the first path.  The choice is the single point when
    there is exactly one, and the point that [point.closest] picks when
    there are more; with [point.closest] as the specification describes
    it, that is a meeting point to which no other is nearer.  When the
    guides do not meet, [fillet] returns null and the store is
    unchanged. *)
Theorem fillet_center_choice (p1 p2 : option loc) (r : Q) (s : store) :
  (∀ arc s', fillet p1 p2 r s = (Normal (Some arc), s') →
     ∃ l1 l2 t,
       p1 = Some l1 ∧ p2 = Some l2 ∧ stages s l1 l2 r t ∧
       read_prop arc "origin" =
         VPoint (chooseCenter (point (matched0 t)) (guideHits t))) ∧
  (∀ common hits,
     (∀ c, intersectionPoints hits = [c] → chooseCenter common hits = c) ∧
     ((1 < length (intersectionPoints hits))%nat →
      chooseCenter common hits = point_closest common (intersectionPoints hits)) ∧
     (closest_spec point_closest → (1 < length (intersectionPoints hits))%nat →
      chooseCenter common hits ∈ intersectionPoints hits ∧
      ∀ q, q ∈ intersectionPoints hits →
           dist2 common (chooseCenter common hits) <= dist2 common q)) ∧
  (∀ l1 l2 t, p1 = Some l1 → p2 = Some l2 → guided s l1 l2 r t →
     intersection (guide0 t) (guide1 t) = None →
     fillet p1 p2 r s = (Normal None, s)).
Proof.
  split; [|split].
  - intros arc s' E.
    destruct (fillet_outcomes p1 p2 r s)
      as [E'|[E'|(l1 & l2 & t & o1 & v0 & o2 & v1 & -> & -> & Hst & S0 & _ & _ & E')]];
      rewrite E' in E; inversion E as [[Harc Hs]].
    exists l1, l2, t.
    repeat (split; [first [reflexivity | assumption]|]).
    subst arc. rewrite <- (sd_point _ _ _ _ _ _ _ _ S0). fold (center t).
    destruct (Qgt_bool _ 180); reflexivity.
  - intros common hits.
    assert (Hmany : (1 < length (intersectionPoints hits))%nat →
                    chooseCenter common hits
                    = point_closest common (intersectionPoints hits)).
    { unfold chooseCenter.
      destruct (intersectionPoints hits) as [|a [|b rest]];
        simpl; intros Hlen; first [lia | reflexivity]. }
    split; [|split].
    + intros c Hone. unfold chooseCenter. rewrite Hone. reflexivity.
    + exact Hmany.
    + intros Hclosest Hlen. rewrite (Hmany Hlen).
      apply Hclosest. intros Hnil. rewrite Hnil in Hlen. simpl in Hlen. lia.
  - intros l1 l2 t -> -> Hg Hnone.
    rewrite (fillet_guided _ _ _ _ _ Hg), Hnone. reflexivity.
Qed.

(** ** Degenerate trims *)

Lemma same_path_same_match (l : loc) (s : store) (m0 m1 : IMatchPointProperty) :
  (∀ p, point_areEqualRounded p p = true) →
  getMatchingPointProperties l l s = (Normal (Some (m0, m1)), s) →
  m0 = m1.
Proof.
  intros Hrefl E.
  destruct (getMatchingPointProperties_Some _ _ _ _ _ _ E)
    as (o1 & o2 & ends1 & ends2 & Ho1 & Ho2 & He1 & He2 & Hspec).
  rewrite Ho1 in Ho2. inversion Ho2; subst o2.
  rewrite He1 in He2. inversion He2; subst ends2.
  destruct (pointPropertiesOf_two _ _ He1) as (a & b & ->).
  unfold matching_spec, first_match in Hspec. simpl in Hspec.
  rewrite Hrefl in Hspec. simpl in Hspec. inversion Hspec. reflexivity.
Qed.

(** C8.  Each side's outcome is validated right after it is computed:
    the deferred mutation is applied, the length of the path is measured
    and the mutation is reverted.  (1) An outcome whose clipped path has
    length zero is rejected, the store being as before.  (2) When either
    side is rejected the call returns null.  (3) After a successful call
    both input paths have a length other than zero. *)
Theorem fillet_never_eliminates_a_path (p1 p2 : option loc) (r : Q) (s : store) :
  (∀ m c o res v,
     s !! path m = Some o → filletResultOf m o c = Some res →
     clipPath res = set_prop (path m) (propertyName m) v →
     measure_pathLength (write_prop o (propertyName m) v) == 0 →
     getFilletResult m r c s = (Normal None, s)) ∧
  (∀ l1 l2 t hits, p1 = Some l1 → p2 = Some l2 → guided s l1 l2 r t →
     intersection (guide0 t) (guide1 t) = Some hits →
     let c := chooseCenter (point (common0 t)) hits in
     getFilletResult (common0 t) r c s = (Normal None, s) ∨
     getFilletResult (common1 t) r c s = (Normal None, s) →
     fillet p1 p2 r s = (Normal None, s)) ∧
  (∀ arc s', fillet p1 p2 r s = (Normal (Some arc), s') →
     (p1 = p2 → ∀ p, point_areEqualRounded p p = true) →
     ∀ l, p1 = Some l ∨ p2 = Some l →
       ∃ o, s' !! l = Some o ∧ ¬ measure_pathLength o == 0).
Proof.
  split; [|split].
  - intros m c o res v Ho Hres Hclip Hzero.
    rewrite (getFilletResult_run _ _ _ _ _ _ _ Ho Hres Hclip).
    apply Qeq_eq_bool in Hzero. rewrite Hzero. reflexivity.
  - intros l1 l2 t hits -> -> Hg Hhits c Hrej.
    rewrite (fillet_guided _ _ _ _ _ Hg), Hhits. simpl. fold c.
    unfold bindO at 1.
    destruct Hrej as [E0|E1].
    + rewrite (bind_Normal _ _ _ _ _ E0). reflexivity.
    + destruct (getFilletResult (common0 t) r c s) as [[[res0|]|e] s0] eqn:E0.
      * pose proof (readonly_eq _ _ _ _ (readonly_getFilletResult _ _ _) E0); subst s0.
        rewrite (bind_Normal _ _ _ _ _ E0). unfold bindO.
        rewrite (bind_Normal _ _ _ _ _ E1). reflexivity.
      * pose proof (readonly_eq _ _ _ _ (readonly_getFilletResult _ _ _) E0); subst s0.
        rewrite (bind_Normal _ _ _ _ _ E0). reflexivity.
      * exfalso.
        destruct (shard_Some _ _ _ _ _ (st_shard0 _ _ _ _ _ Hg)) as (o & ? & Ho & _ & Hcp).
        assert (Hb : s !! path (common0 t) = Some o) by (rewrite Hcp; exact Ho).
        destruct (filletResultOf (common0 t) o c) as [res|] eqn:Hres.
        -- destruct (filletResultOf_clip _ _ _ _ Hres) as (v & Hclip & _).
           rewrite (getFilletResult_run _ _ _ _ _ _ _ Hb Hres Hclip) in E0.
           inversion E0.
        -- rewrite (getFilletResult_null _ _ _ _ _ Hb Hres) in E0. inversion E0.
  - intros arc s' E Halias l Hl.
    destruct (fillet_outcomes p1 p2 r s)
      as [E'|[E'|(l1 & l2 & t & o1 & v0 & o2 & v1 & -> & -> & Hst & S0 & S1 & _ & E')]];
      rewrite E' in E; inversion E as [[Harc Hs]]. clear E Harc.
    pose proof (sd_object _ _ _ _ _ _ _ _ S0) as Ho1.
    pose proof (sd_object _ _ _ _ _ _ _ _ S1) as Ho2.
    pose proof (sd_length _ _ _ _ _ _ _ _ S0) as Hlen0.
    pose proof (sd_length _ _ _ _ _ _ _ _ S1) as Hlen1.
    apply Qeq_bool_neq in Hlen0, Hlen1.
    destruct (decide (l1 = l2)) as [->|Hne].
    + (* the same object passed twice: both sides clip the same field *)
      specialize (Halias eq_refl).
      pose proof (same_path_same_match _ _ _ _ Halias
                    (st_match _ _ _ _ _ (st_guided _ _ _ _ _ Hst))) as Hm.
      assert (l = l2) by (destruct Hl as [Hl|Hl]; inversion Hl; reflexivity). subst l.
      rewrite Ho1 in Ho2. inversion Ho2; subst o2. clear Ho2.
      assert (Hcp : common0 t = common1 t).
      { pose proof (st_shard0 _ _ _ _ _ (st_guided _ _ _ _ _ Hst)) as A.
        pose proof (st_shard1 _ _ _ _ _ (st_guided _ _ _ _ _ Hst)) as B.
        rewrite Hm in A, B. rewrite A in B. inversion B. reflexivity. }
      assert (Hres : outcome0 t = outcome1 t).
      { pose proof (st_outcome0 _ _ _ _ _ Hst) as A.
        pose proof (st_outcome1 _ _ _ _ _ Hst) as B.
        rewrite Hcp in A. rewrite A in B. inversion B. reflexivity. }
      pose proof (sd_clip _ _ _ _ _ _ _ _ S0) as Hc0.
      pose proof (sd_clip _ _ _ _ _ _ _ _ S1) as Hc1.
      rewrite Hres, Hc1, Hm in Hc0.
      assert (Hw : write_prop o1 (propertyName (matched1 t)) v1
                   = write_prop o1 (propertyName (matched1 t)) v0).
      { pose proof (f_equal (λ f, snd (f s) !! l2) Hc0) as Hf. simpl in Hf.
        rewrite !(set_prop_Some _ _ _ _ _ Ho1) in Hf. simpl in Hf.
        rewrite !lookup_insert_eq in Hf. inversion Hf. reflexivity. }
      exists (write_prop o1 (propertyName (matched1 t)) v1). split; [|exact Hlen1].
      rewrite !lookup_overwrite, Ho1, Hm. simpl.
      destruct (decide (l2 = l2)); [|congruence]. simpl.
      rewrite <- Hw, write_prop_idem. reflexivity.
    + destruct Hl as [Hl|Hl]; inversion Hl; subst l.
      * exists (write_prop o1 (propertyName (matched0 t)) v0). split; [|exact Hlen0].
        rewrite !lookup_overwrite, Ho1.
        destruct (decide (l2 = l1)); [congruence|].
        destruct (decide (l1 = l1)); [reflexivity|congruence].
      * exists (write_prop o2 (propertyName (matched1 t)) v1). split; [|exact Hlen1].
        rewrite !lookup_overwrite, Ho2.
        destruct (decide (l2 = l2)); [|congruence].
        destruct (decide (l1 = l2)); [congruence|reflexivity].
Qed.

(** ** The frame of the call *)


(** ** Paths of other types *)

(** C10.  For a path whose type is neither Line nor Arc,
    [getPointProperties] returns null.  When both paths are present and
    one of them is of such a type, endpoint matching dereferences that
    null in its first check and raises a [TypeError]; a call of [fillet]
    with a positive radius therefore raises instead of returning null.
    The store is unchanged. *)
Theorem other_path_types_raise (l1 l2 : loc) (r : Q) (s : store) (o1 o2 : IPath) :
  s !! l1 = Some o1 → s !! l2 = Some o2 →
  ¬ lineOrArc o1 ∨ ¬ lineOrArc o2 →
  0 < r →
  (¬ lineOrArc o1 → getPointProperties l1 s = (Normal None, s)) ∧
  (¬ lineOrArc o2 → getPointProperties l2 s = (Normal None, s)) ∧
  getMatchingPointProperties l1 l2 s = (Throw TypeError, s) ∧
  fillet (Some l1) (Some l2) r s = (Throw TypeError, s).
Proof.
  intros Ho1 Ho2 Hty Hr.
  assert (Hnull : ∀ l o, s !! l = Some o → ¬ lineOrArc o →
                         getPointProperties l s = (Normal None, s)).
  { intros l o Ho Hno. unfold getPointProperties.
    rewrite (bind_Normal _ _ _ _ _ (deref_Some _ _ _ Ho)).
    destruct o; simpl in Hno; first [tauto | reflexivity]. }
  assert (Hraise : getMatchingPointProperties l1 l2 s = (Throw TypeError, s)).
  { apply (getMatchingPointProperties_raise _ _ _ _ _ Ho1 Ho2).
    destruct Hty as [Hno|Hno]; [left; destruct o1 | right; destruct o2];
      simpl in Hno; first [tauto | reflexivity]. }
  repeat split; eauto.
  unfold fillet. apply guard_iff in Hr. rewrite Hr.
  unfold bindO. rewrite (bind_Throw _ _ _ _ _ Hraise). reflexivity.
Qed.

End FilletProperties.

(** * Scenarios

    The theorems above hold for every geometry library.  Here they are
    applied to the exact axis-parallel instance, on the corner of the
    specification's scenarios and on a half circle. *)

Section Scenarios.
Import AxisGeometry.

(** Radius 10 on the corner: the tangent point of the first side is its
    own origin, the clipped side has length zero, the clip is reverted
    and the call returns null. *)
Lemma fillet_null_leaves_paths_unchanged_witness :
  let out := fillet (Some 1%nat) (Some 2%nat) 10 corner in
  out = (Normal None, snd out) ∧ snd out = corner.
Proof.
  intros out.
  assert (E : out = (Normal None, snd out)) by (vm_compute; reflexivity).
  split; [exact E|].
  exact (fillet_null_leaves_paths_unchanged (H := geometry) _ _ _ _ _ E).
Defined.


Lemma fillet_radius_is_requested_witness :
  let out := fillet (Some 1%nat) (Some 2%nat) 2 corner in
  out = (Normal (Some (returned out)), snd out) ∧
  ∃ c a b, returned out = Arc c 2 a b.
Proof.
  intros out.
  assert (E : out = (Normal (Some (returned out)), snd out))
    by (vm_compute; reflexivity).
  split; [exact E|].
  exact (fillet_radius_is_requested (H := geometry) _ _ _ _ _ _ E).
Defined.

(** A fillet of radius 2 that touches the half circle from outside at
    (0, 5) has its centre at (0, 7).  The line from the arc's centre to
    it has angle 90; the arc is not concave towards (0, 7); the clip
    writes 90 to [endAngle], and 90 is not 90 + 180. *)
Lemma arc_side_clip_offset_counterexample :
  let filletCenter : IPoint := (0, 7) in
  let guideLineAngle := angle_ofLineInDegrees (Line (0, 0) filletCenter) in
  let out := getFilletResult halfCircleEnd 2 filletCenter halfCircle in
  out = (Normal (Some (kept out)), halfCircle) ∧
  measure_isArcConcaveTowardsPoint (Arc (0, 0) 5 0 180) (Some filletCenter) = false ∧
  snd (clipPath (kept out) halfCircle) !! 1%nat = Some (Arc (0, 0) 5 0 guideLineAngle) ∧
  ¬ guideLineAngle == guideLineAngle + 180.
Proof.
  intros filletCenter guideLineAngle out.
  split; [vm_compute; reflexivity|].
  split; [vm_compute; reflexivity|].
  split; [vm_compute; reflexivity|].
  vm_compute. discriminate.
Defined.

Lemma arc_side_clips_to_guide_angle_witness :
  let filletCenter : IPoint := (0, 7) in
  let guideLineAngle := angle_ofLineInDegrees (Line (0, 0) filletCenter) in
  let out := getFilletResult halfCircleEnd 2 filletCenter halfCircle in
  halfCircle !! path halfCircleEnd = Some (Arc (0, 0) 5 0 180) ∧
  out = (Normal (Some (kept out)), snd out) ∧
  filletAngle (kept out) = guideLineAngle + 180 ∧
  snd (clipPath (kept out) halfCircle) !! 1%nat = Some (Arc (0, 0) 5 0 guideLineAngle).
Proof.
  intros filletCenter guideLineAngle out.
  assert (Ho : halfCircle !! path halfCircleEnd = Some (Arc (0, 0) 5 0 180))
    by (vm_compute; reflexivity).
  assert (E : out = (Normal (Some (kept out)), snd out)) by (vm_compute; reflexivity).
  split; [exact Ho|]. split; [exact E|].
  destruct (arc_side_clips_to_guide_angle (H := geometry) halfCircleEnd 2 filletCenter
              halfCircle (snd out) _ _ _ _ (kept out) Ho E)
    as (Hangle & _ & _ & Hend).
  split; [exact Hangle | exact (Hend eq_refl)].
Defined.

Lemma arc_guide_radius_witness :
  halfCircle !! path halfCircleEnd = Some (Arc (0, 0) 5 0 180) ∧
  getGuidePath halfCircleEnd 2 (Some (3, 7)) halfCircle =
    (Normal (arcGuide halfCircleEnd 2 (Some (3, 7)) (0, 0) 5 0 180), halfCircle).
Proof.
  assert (Ho : halfCircle !! path halfCircleEnd = Some (Arc (0, 0) 5 0 180))
    by (vm_compute; reflexivity).
  split; [exact Ho|].
  exact (proj1 (arc_guide_radius (H := geometry) halfCircleEnd 2 (Some (3, 7))
                  _ _ _ _ _ Ho)).
Defined.

Lemma endpoint_matching_is_first_match_witness :
  let ends1 := [ mkPointProperty (0, 0) "origin"; mkPointProperty (10, 0) "end" ] in
  let ends2 := [ mkPointProperty (10, 0) "origin"; mkPointProperty (10, 10) "end" ] in
  corner !! 1%nat = Some (Line (0, 0) (10, 0)) ∧
  corner !! 2%nat = Some (Line (10, 0) (10, 10)) ∧
  pointPropertiesOf (Line (0, 0) (10, 0)) = Some ends1 ∧
  pointPropertiesOf (Line (10, 0) (10, 10)) = Some ends2 ∧
  getMatchingPointProperties 1%nat 2%nat corner =
    (Normal (matching_spec point_areEqualRounded 1%nat 2%nat ends1 ends2), corner).
Proof.
  intros ends1 ends2.
  assert (Ho1 : corner !! 1%nat = Some (Line (0, 0) (10, 0))) by (vm_compute; reflexivity).
  assert (Ho2 : corner !! 2%nat = Some (Line (10, 0) (10, 10))) by (vm_compute; reflexivity).
  assert (He1 : pointPropertiesOf (Line (0, 0) (10, 0)) = Some ends1) by reflexivity.
  assert (He2 : pointPropertiesOf (Line (10, 0) (10, 10)) = Some ends2) by reflexivity.
  repeat (split; [assumption|]).
  exact (proj1 (endpoint_matching_is_first_match (H := geometry)
                  _ _ _ _ _ _ _ Ho1 Ho2 He1 He2)).
Defined.

(** The exact instance picks the nearest candidate. *)
Lemma closest_fold (p : IPoint) (rest : list IPoint) (q : IPoint) :
  let pick := λ best c, if Qle_bool (dist2 p best) (dist2 p c) then best else c in
  (fold_left pick rest q = q ∨ fold_left pick rest q ∈ rest) ∧
  dist2 p (fold_left pick rest q) <= dist2 p q ∧
  ∀ c, c ∈ rest → dist2 p (fold_left pick rest q) <= dist2 p c.
Proof.
  intros pick. revert q.
  induction rest as [|a rest IH]; intros q; simpl.
  - split; [left; reflexivity|]. split; [apply Qle_refl|].
    intros c Hc. inversion Hc.
  - destruct (IH (pick q a)) as (Hin & Hle & Hall).
    assert (Hq : dist2 p (pick q a) <= dist2 p q ∧ dist2 p (pick q a) <= dist2 p a).
    { unfold pick. destruct (Qle_bool (dist2 p q) (dist2 p a)) eqn:E.
      - apply Qle_bool_iff in E. split; [apply Qle_refl | exact E].
      - split; [|apply Qle_refl].
        apply Qlt_le_weak, Qnot_le_lt. intros Hle'.
        apply Qle_bool_iff in Hle'. congruence. }
    destruct Hq as [Hq Ha].
    split; [|split].
    + destruct Hin as [Hin|Hin].
      * rewrite Hin. unfold pick.
        destruct (Qle_bool _ _); [left; reflexivity | right; left].
      * right; right; exact Hin.
    + eapply Qle_trans; eassumption.
    + intros c Hc. apply elem_of_cons in Hc as [->|Hc].
      * eapply Qle_trans; eassumption.
      * apply Hall, Hc.
Qed.

Lemma closest_meets_spec : closest_spec closest.
Proof.
  intros p [|q rest] Hne; [congruence|]. unfold closest.
  destruct (closest_fold p rest q) as (Hin & Hle & Hall).
  split.
  - destruct Hin as [Hin|Hin]; [rewrite Hin; left | right; exact Hin].
  - intros c Hc. apply elem_of_cons in Hc as [->|Hc]; [exact Hle | apply Hall, Hc].
Qed.

Lemma fillet_center_choice_witness :
  let out := fillet (Some 1%nat) (Some 2%nat) 2 corner in
  let hits := mkIntersection [ (8, 6); (8, 2); (4, 2) ] in
  out = (Normal (Some (returned out)), snd out) ∧
  (∃ c, read_prop (returned out) "origin" = VPoint c) ∧
  closest_spec point_closest ∧
  (1 < length (intersectionPoints hits))%nat ∧
  chooseCenter (10, 0) hits ∈ intersectionPoints hits.
Proof.
  intros out hits.
  assert (E : out = (Normal (Some (returned out)), snd out))
    by (vm_compute; reflexivity).
  assert (Hlen : (1 < length (intersectionPoints hits))%nat) by (simpl; lia).
  pose proof (fillet_center_choice (H := geometry) (Some 1%nat) (Some 2%nat) 2 corner)
    as (Hsuccess & Hchoice & _).
  split; [exact E|]. split.
  - destruct (Hsuccess _ _ E) as (l1 & l2 & t & _ & _ & _ & Horigin).
    eexists. exact Horigin.
  - split; [exact closest_meets_spec|]. split; [exact Hlen|].
    exact (proj1 (proj2 (proj2 (Hchoice (10, 0) hits)) closest_meets_spec Hlen)).
Defined.

Lemma fillet_never_eliminates_a_path_witness :
  let out := fillet (Some 1%nat) (Some 2%nat) 2 corner in
  out = (Normal (Some (returned out)), snd out) ∧
  (∃ o, snd out !! 1%nat = Some o ∧ ¬ measure_pathLength o == 0) ∧
  (∃ o, snd out !! 2%nat = Some o ∧ ¬ measure_pathLength o == 0).
Proof.
  intros out.
  assert (E : out = (Normal (Some (returned out)), snd out))
    by (vm_compute; reflexivity).
  assert (Hdistinct : Some 1%nat = Some 2%nat →
                      ∀ p, point_areEqualRounded p p = true)
    by (intros Heq; discriminate Heq).
  pose proof (proj2 (proj2 (fillet_never_eliminates_a_path (H := geometry)
                              (Some 1%nat) (Some 2%nat) 2 corner)) _ _ E Hdistinct)
    as Hlen.
  split; [exact E|].
  split; apply Hlen; [left | right]; reflexivity.
Defined.


Lemma other_path_types_raise_witness :
  circleCorner !! 1%nat = Some (Circle (0, 0) 1) ∧
  circleCorner !! 2%nat = Some (Line (10, 0) (10, 10)) ∧
  0 < 2 ∧
  fillet (Some 1%nat) (Some 2%nat) 2 circleCorner = (Throw TypeError, circleCorner).
Proof.
  assert (Ho1 : circleCorner !! 1%nat = Some (Circle (0, 0) 1)) by (vm_compute; reflexivity).
  assert (Ho2 : circleCorner !! 2%nat = Some (Line (10, 0) (10, 10)))
    by (vm_compute; reflexivity).
  assert (Hr : 0 < 2) by reflexivity.
  repeat (split; [assumption|]).
  refine (proj2 (proj2 (proj2 (other_path_types_raise (H := geometry)
                                 _ _ _ _ _ _ Ho1 Ho2 _ Hr)))).
  left. simpl. tauto.
Defined.

End Scenarios.

(** * Further properties of the core *)

Section FurtherProperties.
Context `{Collaborators}.

(** ** The entry guard *)

(** X1.  A call with a missing path or with a radius that is not
    positive returns null at the entry guard: no path is read, so the call
    neither raises nor changes anything, whatever the paths are. *)
Theorem fillet_invalid_input_is_null (p1 p2 : option loc) (r : Q) (s : store) :
  p1 = None ∨ p2 = None ∨ r <= 0 →
  fillet p1 p2 r s = (Normal None, s).
Proof.
  intros Hbad. unfold fillet.
  destruct p1 as [l1|]; [|reflexivity].
  destruct p2 as [l2|]; [|reflexivity].
  destruct Hbad as [Hbad|[Hbad|Hr]]; try discriminate.
  destruct (truthy r && Qgt_bool r 0) eqn:Hguard; [|reflexivity].
  apply guard_iff in Hguard. lra.
Qed.

(** ** Endpoint matching *)

Lemma pointPropertiesOf_endpoints (o : IPath) :
  lineOrArc o →
  ∃ p q n0 n1,
    pointPropertiesOf o = Some [ mkPointProperty p n0; mkPointProperty q n1 ] ∧
    endpointPoint o true = Some p ∧ endpointPoint o false = Some q.
Proof.
  destruct o; simpl; intros Hty; try contradiction; eauto 10.
Qed.

Lemma matchOf_endpoint (l : loc) (o : IPath) (ends : list IPointProperty) (i : nat)
    (m : IMatchPointProperty) :
  pointPropertiesOf o = Some ends → matchOf l ends i = Some m →
  endpointPoint o (isStart m) = Some (point m).
Proof.
  intros He Hm. unfold matchOf in Hm.
  destruct o; simpl in He; inversion He; subst; clear He;
    destruct i as [|[|i]]; simpl in Hm; inversion Hm; subst; reflexivity.
Qed.

(** X2.  A pair of match records returned by endpoint matching is sound:
    the first record names the first path and the second the second; each
    names the endpoint field of its path's type that [isStart] selects and
    carries that endpoint's point; the two points are equal under the
    rounded comparison; no shard point is set yet; and the store is as
    before. *)
Theorem matching_is_sound (l1 l2 : loc) (s s' : store) (m0 m1 : IMatchPointProperty) :
  getMatchingPointProperties l1 l2 s = (Normal (Some (m0, m1)), s') →
  s' = s ∧
  path m0 = l1 ∧ path m1 = l2 ∧
  shardPoint m0 = None ∧ shardPoint m1 = None ∧
  point_areEqualRounded (point m0) (point m1) = true ∧
  ∃ o1 o2,
    s !! l1 = Some o1 ∧ s !! l2 = Some o2 ∧
    endpointField o1 (isStart m0) = Some (propertyName m0) ∧
    endpointField o2 (isStart m1) = Some (propertyName m1) ∧
    endpointPoint o1 (isStart m0) = Some (point m0) ∧
    endpointPoint o2 (isStart m1) = Some (point m1).
Proof.
  intros E.
  pose proof (readonly_eq _ _ _ _ (readonly_getMatchingPointProperties l1 l2) E); subst s'.
  destruct (getMatchingPointProperties_Some _ _ _ _ _ _ E)
    as (o1 & o2 & ends1 & ends2 & Ho1 & Ho2 & He1 & He2 & Hspec).
  destruct (matching_spec_Some _ _ _ _ _ _ _ Hspec) as (i1 & i2 & Hfirst & Hm0 & Hm1).
  destruct (matchOf_Some _ _ _ _ _ He1 Hm0) as (Hp0 & Hsh0 & Hf0 & Hl0).
  destruct (matchOf_Some _ _ _ _ _ He2 Hm1) as (Hp1 & Hsh1 & Hf1 & Hl1).
  repeat (split; [assumption || reflexivity|]).
  split.
  - unfold first_match in Hfirst. apply find_some in Hfirst as [_ Htest].
    simpl in Htest. rewrite Hl0, Hl1 in Htest. exact Htest.
  - exists o1, o2. repeat (split; [assumption|]).
    split; eapply matchOf_endpoint; eassumption.
Qed.

(** X3.  For two paths that are lines or arcs, endpoint matching returns
    null exactly when none of the four pairings of an endpoint of the
    first with an endpoint of the second is equal under the rounded
    comparison. *)
Theorem matching_null_iff_no_pair (l1 l2 : loc) (s : store) (o1 o2 : IPath) :
  s !! l1 = Some o1 → s !! l2 = Some o2 →
  lineOrArc o1 → lineOrArc o2 →
  getMatchingPointProperties l1 l2 s = (Normal None, s) ↔
  ∀ b1 b2 p q, endpointPoint o1 b1 = Some p → endpointPoint o2 b2 = Some q →
               point_areEqualRounded p q = false.
Proof.
  intros Ho1 Ho2 Hty1 Hty2.
  destruct (pointPropertiesOf_endpoints _ Hty1) as (p0 & p1 & n0 & n1 & He1 & Hs1 & Hf1).
  destruct (pointPropertiesOf_endpoints _ Hty2) as (q0 & q1 & k0 & k1 & He2 & Hs2 & Hf2).
  rewrite (getMatchingPointProperties_run _ _ _ _ _ _ _ Ho1 Ho2 He1 He2).
  unfold matching_spec, first_match, matchOf. simpl.
  split.
  - intros E b1 b2 p q Hp Hq.
    destruct (point_areEqualRounded p0 q0) eqn:T00; [inversion E|].
    destruct (point_areEqualRounded p0 q1) eqn:T01; [inversion E|].
    destruct (point_areEqualRounded p1 q0) eqn:T10; [inversion E|].
    destruct (point_areEqualRounded p1 q1) eqn:T11; [inversion E|].
    destruct b1, b2; congruence.
  - intros Hall.
    rewrite (Hall true true _ _ Hs1 Hs2), (Hall true false _ _ Hs1 Hf2),
            (Hall false true _ _ Hf1 Hs2), (Hall false false _ _ Hf1 Hf2).
    reflexivity.
Qed.

Lemma matching_paths (l1 l2 : loc) (s s' : store) (m0 m1 : IMatchPointProperty) :
  getMatchingPointProperties l1 l2 s = (Normal (Some (m0, m1)), s') →
  path m0 = l1 ∧ path m1 = l2.
Proof.
  intros E.
  destruct (getMatchingPointProperties_Some _ _ _ _ _ _ E)
    as (o1 & o2 & ends1 & ends2 & _ & _ & He1 & He2 & Hspec).
  destruct (matching_spec_Some _ _ _ _ _ _ _ Hspec) as (i1 & i2 & _ & Hm0 & Hm1).
  destruct (matchOf_Some _ _ _ _ _ He1 Hm0) as (Hp0 & _).
  destruct (matchOf_Some _ _ _ _ _ He2 Hm1) as (Hp1 & _).
  auto.
Qed.

(** X4.  The same line or arc passed as both paths, with a rounded
    comparison that holds between a point and itself: the first pairing
    already matches, so endpoint matching returns the start endpoint of
    that path twice, whatever its other endpoint is. *)
Theorem same_path_twice (l : loc) (s : store) (o : IPath) :
  s !! l = Some o → lineOrArc o →
  (∀ p, point_areEqualRounded p p = true) →
  ∃ m, getMatchingPointProperties l l s = (Normal (Some (m, m)), s) ∧
       path m = l ∧ isStart m = true ∧
       endpointPoint o true = Some (point m) ∧
       endpointField o true = Some (propertyName m).
Proof.
  intros Ho Hty Hrefl.
  destruct (pointPropertiesOf_endpoints _ Hty) as (p0 & p1 & n0 & n1 & He & Hs & _).
  rewrite (getMatchingPointProperties_run _ _ _ _ _ _ _ Ho Ho He He).
  unfold matching_spec, first_match, matchOf. simpl. rewrite Hrefl. simpl.
  eexists. split; [reflexivity|]. simpl.
  repeat (split; [first [reflexivity | assumption]|]).
  destruct o; simpl in He, Hty |- *; inversion He; first [reflexivity | contradiction].
Qed.

(** X5.  Whether endpoint matching finds a common point does not depend
    on the order of the two paths, provided the rounded comparison is
    symmetric: it returns null for one order exactly when it does for the
    other.  (Which pairing it reports can differ.) *)
Theorem matching_null_is_symmetric (l1 l2 : loc) (s : store) (o1 o2 : IPath) :
  s !! l1 = Some o1 → s !! l2 = Some o2 →
  lineOrArc o1 → lineOrArc o2 →
  (∀ p q, point_areEqualRounded p q = point_areEqualRounded q p) →
  getMatchingPointProperties l1 l2 s = (Normal None, s) ↔
  getMatchingPointProperties l2 l1 s = (Normal None, s).
Proof.
  intros Ho1 Ho2 Hty1 Hty2 Hsym.
  destruct (pointPropertiesOf_endpoints _ Hty1) as (p0 & p1 & n0 & n1 & He1 & _).
  destruct (pointPropertiesOf_endpoints _ Hty2) as (q0 & q1 & k0 & k1 & He2 & _).
  rewrite (getMatchingPointProperties_run _ _ _ _ _ _ _ Ho1 Ho2 He1 He2).
  rewrite (getMatchingPointProperties_run _ _ _ _ _ _ _ Ho2 Ho1 He2 He1).
  unfold matching_spec, first_match, matchOf. simpl.
  rewrite (Hsym q0 p0), (Hsym q0 p1), (Hsym q1 p0), (Hsym q1 p1).
  destruct (point_areEqualRounded p0 q0), (point_areEqualRounded p0 q1),
           (point_areEqualRounded p1 q0), (point_areEqualRounded p1 q1);
    simpl; split; intros E; first [reflexivity | inversion E].
Qed.

(** ** The shard locator *)

Lemma shard_run (c : IPath) (m : IMatchPointProperty) (s : store) (o : IPath) :
  s !! path m = Some o →
  shard c m s =
    (Normal (match intersection (Some c) (Some o) with
             | Some hits => Some (with_shardPoint m (intersectionPoints hits !! 0%nat))
             | None => None
             end), s).
Proof.
  intros Ho. unfold shard.
  rewrite (bind_Normal _ _ _ _ _ (deref_Some _ _ _ Ho)).
  destruct (intersection (Some c) (Some o)); reflexivity.
Qed.

(** X6.  The probe circle has the matched point of the first path as its
    centre and the fillet radius as its radius.  When it does not
    intersect one of the two paths, [fillet] returns null and the store is
    unchanged. *)
Theorem probe_miss_is_null (l1 l2 : loc) (r : Q) (s : store)
    (m0 m1 : IMatchPointProperty) (o1 o2 : IPath) :
  0 < r →
  getMatchingPointProperties l1 l2 s = (Normal (Some (m0, m1)), s) →
  s !! l1 = Some o1 → s !! l2 = Some o2 →
  intersection (Some (Circle (point m0) r)) (Some o1) = None ∨
  intersection (Some (Circle (point m0) r)) (Some o2) = None →
  fillet (Some l1) (Some l2) r s = (Normal None, s).
Proof.
  intros Hr Hm Ho1 Ho2 Hmiss.
  destruct (matching_paths _ _ _ _ _ _ Hm) as [Hp0 Hp1].
  rewrite <- Hp0 in Ho1. rewrite <- Hp1 in Ho2.
  unfold fillet. apply guard_iff in Hr. rewrite Hr.
  unfold bindO at 1. rewrite (bind_Normal _ _ _ _ _ Hm).
  unfold bindO at 1. rewrite (bind_Normal _ _ _ _ _ (shard_run _ _ _ _ Ho1)).
  destruct (intersection (Some (Circle (point m0) r)) (Some o1)) as [hits0|];
    [|reflexivity].
  destruct Hmiss as [Hmiss|Hmiss]; [discriminate|].
  unfold bindO at 1. rewrite (bind_Normal _ _ _ _ _ (shard_run _ _ _ _ Ho2)).
  rewrite Hmiss. reflexivity.
Qed.

(** ** The tangent resolver *)

(** X7.  [getFilletResult] hands the store back as it received it, for
    every context, centre and store: the clip it applies for the length
    test is always undone.  The outcome it keeps is a deferred write of
    the context's property of the context's path and of nothing else. *)
Theorem getFilletResult_restores_the_path (m : IMatchPointProperty) (r : Q)
    (c : IPoint) (s : store) :
  snd (getFilletResult m r c s) = s ∧
  ∀ res, fst (getFilletResult m r c s) = Normal (Some res) →
    ∃ v, clipPath res s = (Normal tt, overwrite (path m) (propertyName m) v s).
Proof.
  split; [apply readonly_getFilletResult|].
  intros res E.
  destruct (getFilletResult m r c s) as [out s1] eqn:Hrun. simpl in E. subst out.
  destruct (getFilletResult_Some _ _ _ _ _ _ Hrun) as (_ & o & v & Ho & _ & Hclip & _).
  exists v. rewrite Hclip. apply (set_prop_overwrite _ _ _ _ _ Ho).
Qed.

(** X8.  On a line side the tangent point is where the line's slope
    meets the perpendicular through the fillet centre.  Without such a
    point the side has no outcome.  With it, the outcome's angle is the
    direction from the fillet centre to that point, its deferred write
    puts the point into the matched property, and the outcome is kept
    unless the line so clipped has length zero; the store is unchanged
    either way. *)
Theorem line_side_clips_to_tangent_point (m : IMatchPointProperty) (r : Q)
    (filletCenter : IPoint) (s : store) (a b : IPoint) :
  s !! path m = Some (Line a b) →
  match slopeIntersectionPoint (Line a b)
          (perpendicularThrough (Line a b) filletCenter) with
  | None => getFilletResult m r filletCenter s = (Normal None, s)
  | Some tangent =>
      ∃ res,
        filletAngle res
        = angle_toDegrees (angle_ofPointInRadians filletCenter tangent) ∧
        clipPath res = set_prop (path m) (propertyName m) (VPoint tangent) ∧
        getFilletResult m r filletCenter s =
          (Normal (if Qeq_bool (measure_pathLength
                                  (write_prop (Line a b) (propertyName m)
                                     (VPoint tangent))) 0
                   then None else Some res), s)
  end.
Proof.
  intros Ho.
  destruct (slopeIntersectionPoint _ _) as [tangent|] eqn:Hmeet.
  - eexists. split; [|split]; [| |apply (getFilletResult_run _ _ _ _ _ _ _ Ho)].
    3: { simpl. unfold lineFilletResult. fold (perpendicularThrough (Line a b) filletCenter).
         rewrite Hmeet. reflexivity. }
    all: reflexivity.
  - apply (getFilletResult_null _ _ _ _ _ Ho).
    simpl. unfold lineFilletResult. fold (perpendicularThrough (Line a b) filletCenter).
    rewrite Hmeet. reflexivity.
Qed.

(** ** Exceptions *)

Lemma getGuidePath_normal (m : IMatchPointProperty) (r : Q) (near : option IPoint)
    (s : store) (o : IPath) :
  s !! path m = Some o →
  ∃ g, getGuidePath m r near s = (Normal g, s).
Proof.
  intros Ho. unfold getGuidePath.
  rewrite (bind_Normal _ _ _ _ _ (deref_Some _ _ _ Ho)).
  destruct o; try (eexists; reflexivity).
  destruct (if isStart m then _ else _); eexists; reflexivity.
Qed.

Lemma getFilletResult_normal (m : IMatchPointProperty) (r : Q) (c : IPoint)
    (s : store) (o : IPath) :
  s !! path m = Some o →
  ∃ x, getFilletResult m r c s = (Normal x, s).
Proof.
  intros Ho. destruct (filletResultOf m o c) as [res|] eqn:Hres.
  - destruct (filletResultOf_clip _ _ _ _ Hres) as (v & Hclip & _).
    rewrite (getFilletResult_run _ _ _ _ _ _ _ Ho Hres Hclip). eauto.
  - rewrite (getFilletResult_null _ _ _ _ _ Ho Hres). eauto.
Qed.

(** A call on two lines or arcs ends normally. *)
Lemma fillet_normal (l1 l2 : loc) (r : Q) (s : store) (o1 o2 : IPath) :
  s !! l1 = Some o1 → s !! l2 = Some o2 →
  lineOrArc o1 → lineOrArc o2 →
  ∃ x s', fillet (Some l1) (Some l2) r s = (Normal x, s').
Proof.
  intros Ho1 Ho2 Hty1 Hty2.
  destruct (pointPropertiesOf_endpoints _ Hty1) as (p0 & p1 & n0 & n1 & He1 & _).
  destruct (pointPropertiesOf_endpoints _ Hty2) as (q0 & q1 & k0 & k1 & He2 & _).
  pose proof (getMatchingPointProperties_run _ _ _ _ _ _ _ Ho1 Ho2 He1 He2) as Hm.
  unfold fillet.
  destruct (truthy r && Qgt_bool r 0); [|eauto].
  unfold bindO at 1. rewrite (bind_Normal _ _ _ _ _ Hm).
  destruct (matching_spec _ _ _ _ _) as [[m0 m1]|] eqn:Hspec; [|eauto].
  destruct (matching_paths _ _ _ _ _ _ Hm) as [Hp0 Hp1].
  rewrite <- Hp0 in Ho1. rewrite <- Hp1 in Ho2.
  unfold bindO at 1. rewrite (bind_Normal _ _ _ _ _ (shard_run _ _ _ _ Ho1)).
  destruct (intersection (Some (Circle (point m0) r)) (Some o1)) as [hits0|]; [|eauto].
  unfold bindO at 1. rewrite (bind_Normal _ _ _ _ _ (shard_run _ _ _ _ Ho2)).
  destruct (intersection (Some (Circle (point m0) r)) (Some o2)) as [hits1|]; [|eauto].
  set (cp0 := with_shardPoint m0 _). set (cp1 := with_shardPoint m1 _).
  assert (Hc0 : s !! path cp0 = Some o1) by exact Ho1.
  assert (Hc1 : s !! path cp1 = Some o2) by exact Ho2.
  destruct (getGuidePath_normal cp0 r (shardPoint cp1) _ _ Hc0) as [g0 Hg0].
  destruct (getGuidePath_normal cp1 r (shardPoint cp0) _ _ Hc1) as [g1 Hg1].
  rewrite (bind_Normal _ _ _ _ _ Hg0), (bind_Normal _ _ _ _ _ Hg1).
  destruct (intersection g0 g1) as [hits|]; [|eauto].
  unfold bindO at 1. rewrite (bind_Normal _ _ s (Some hits) s) by reflexivity.
  set (c := chooseCenter (point cp0) hits).
  destruct (getFilletResult_normal cp0 r c _ _ Hc0) as [x0 Hx0].
  unfold bindO at 1. rewrite (bind_Normal _ _ _ _ _ Hx0).
  destruct x0 as [res0|]; [|eauto].
  destruct (getFilletResult_normal cp1 r c _ _ Hc1) as [x1 Hx1].
  unfold bindO at 1. rewrite (bind_Normal _ _ _ _ _ Hx1).
  destruct x1 as [res1|]; [|eauto].
  destruct (getFilletResult_Some _ _ _ _ _ _ Hx0) as (_ & a & v0 & Ha & _ & Hclip0 & _).
  destruct (getFilletResult_Some _ _ _ _ _ _ Hx1) as (_ & b & v1 & Hb & _ & Hclip1 & _).
  rewrite (assemble_run _ _ _ _ _ _ _ _ _ _ _ _ _ Hclip0 Ha Hclip1 Hb).
  simpl. destruct (Qeq_bool _ 180); eauto.
Qed.

(** X9.  For two paths that exist, a call raises exactly when the radius
    is positive and one of the paths is neither a line nor an arc.  On
    lines and arcs every failure is a null return, never an exception.
    A call that raises leaves the store unchanged. *)
Theorem fillet_raises_iff_other_type (l1 l2 : loc) (r : Q) (s : store) (o1 o2 : IPath) :
  s !! l1 = Some o1 → s !! l2 = Some o2 →
  ((∃ e s', fillet (Some l1) (Some l2) r s = (Throw e, s')) ↔
   0 < r ∧ (¬ lineOrArc o1 ∨ ¬ lineOrArc o2)) ∧
  (∀ e s', fillet (Some l1) (Some l2) r s = (Throw e, s') → s' = s).
Proof.
  intros Ho1 Ho2.
  split; [|intros e s' E;
           destruct (fillet_outcomes (Some l1) (Some l2) r s)
             as [E'|[E'|(? & ? & ? & ? & ? & ? & ? & _ & _ & _ & _ & _ & _ & E')]];
           rewrite E' in E; inversion E; reflexivity].
  split.
  - intros (e & s' & E).
    destruct (Qlt_le_dec 0 r) as [Hr|Hr].
    + split; [exact Hr|].
      assert (Hdec : ∀ o, lineOrArc o ∨ ¬ lineOrArc o)
        by (intros [| |]; simpl; tauto).
      destruct (Hdec o1) as [Hty1|]; [|tauto].
      destruct (Hdec o2) as [Hty2|]; [|tauto].
      destruct (fillet_normal l1 l2 r s o1 o2 Ho1 Ho2 Hty1 Hty2) as (x & s1 & E').
      rewrite E' in E. inversion E.
    + exfalso. unfold fillet in E.
      destruct (truthy r && Qgt_bool r 0) eqn:Hguard; [|inversion E].
      apply guard_iff in Hguard. lra.
  - intros [Hr Hty]. exists TypeError, s.
    assert (Hraise : getMatchingPointProperties l1 l2 s = (Throw TypeError, s)).
    { apply (getMatchingPointProperties_raise _ _ _ _ _ Ho1 Ho2).
      destruct Hty as [Hno|Hno]; [left; destruct o1 | right; destruct o2];
        simpl in Hno; first [tauto | reflexivity]. }
    unfold fillet. apply guard_iff in Hr. rewrite Hr.
    unfold bindO. rewrite (bind_Throw _ _ _ _ _ Hraise). reflexivity.
Qed.

(** ** The trimmed paths and the returned arc *)

(** The clip of a kept outcome, as a write to the object at hand. *)
Lemma side_write (s : store) (l : loc) (m cp : IMatchPointProperty) (c : IPoint)
    (res : IFilletResult) (o : IPath) (v w : value) :
  side s l m cp c res o v →
  clipPath res = set_prop (path cp) (propertyName cp) w →
  write_prop o (propertyName m) v = write_prop o (propertyName m) w.
Proof.
  intros S Hres.
  pose proof (sd_clip _ _ _ _ _ _ _ _ S) as Hclip.
  pose proof (sd_object _ _ _ _ _ _ _ _ S) as Ho.
  rewrite Hres, (sd_path _ _ _ _ _ _ _ _ S), (sd_name _ _ _ _ _ _ _ _ S) in Hclip.
  pose proof (f_equal (λ f, snd (f s) !! l) Hclip) as Hf. simpl in Hf.
  rewrite !(set_prop_Some _ _ _ _ _ Ho) in Hf. simpl in Hf.
  rewrite !lookup_insert_eq in Hf. inversion Hf. reflexivity.
Qed.

Lemma side_line (s : store) (l : loc) (m cp : IMatchPointProperty) (c : IPoint)
    (res : IFilletResult) (a b : IPoint) (v : value) :
  side s l m cp c res (Line a b) v →
  ∃ tangent,
    slopeIntersectionPoint (Line a b) (perpendicularThrough (Line a b) c)
    = Some tangent ∧
    filletAngle res = angle_toDegrees (angle_ofPointInRadians c tangent) ∧
    write_prop (Line a b) (propertyName m) v
    = (if isStart m then Line tangent b else Line a tangent).
Proof.
  intros S.
  pose proof (sd_result _ _ _ _ _ _ _ _ S) as Hres.
  simpl in Hres. unfold lineFilletResult in Hres.
  fold (perpendicularThrough (Line a b) c) in Hres.
  destruct (slopeIntersectionPoint _ _) as [tangent|]; [|discriminate].
  inversion Hres as [Hr]. exists tangent.
  split; [reflexivity|]. split; [reflexivity|].
  rewrite (side_write _ _ _ _ _ _ _ _ (VPoint tangent) S)
    by (rewrite <- Hr; reflexivity).
  pose proof (sd_field _ _ _ _ _ _ _ _ S) as Hf. simpl in Hf.
  inversion Hf as [Hn]. destruct (isStart m); reflexivity.
Qed.

Lemma side_arc (s : store) (l : loc) (m cp : IMatchPointProperty) (c : IPoint)
    (res : IFilletResult) (c0 : IPoint) (rad sa ea : Q) (v : value) :
  side s l m cp c res (Arc c0 rad sa ea) v →
  let g := angle_ofLineInDegrees (Line c0 c) in
  filletAngle res
  = (if measure_isArcConcaveTowardsPoint (Arc c0 rad sa ea) (Some c)
     then g else g + 180) ∧
  write_prop (Arc c0 rad sa ea) (propertyName m) v
  = (if isStart m then Arc c0 rad g ea else Arc c0 rad sa g).
Proof.
  intros S g.
  pose proof (sd_result _ _ _ _ _ _ _ _ S) as Hres.
  simpl in Hres. inversion Hres as [Hr].
  split.
  - simpl. destruct (measure_isArcConcaveTowardsPoint _ _); reflexivity.
  - rewrite (side_write _ _ _ _ _ _ _ _ (VNumber g) S)
      by (rewrite <- Hr; reflexivity).
    pose proof (sd_field _ _ _ _ _ _ _ _ S) as Hf. simpl in Hf.
    inversion Hf as [Hn]. destruct (isStart m); reflexivity.
Qed.

(** After a successful call on two distinct paths, the object at each
    path is the original with its side's write applied. *)
Lemma committed_objects (s : store) (l1 l2 : loc) (n0 n1 : string) (v0 v1 : value)
    (o1 o2 : IPath) :
  l1 ≠ l2 → s !! l1 = Some o1 → s !! l2 = Some o2 →
  overwrite l2 n1 v1 (overwrite l1 n0 v0 s) !! l1 = Some (write_prop o1 n0 v0) ∧
  overwrite l2 n1 v1 (overwrite l1 n0 v0 s) !! l2 = Some (write_prop o2 n1 v1).
Proof.
  intros Hne Ho1 Ho2. rewrite !lookup_overwrite, Ho1, Ho2.
  destruct (decide (l2 = l1)); [congruence|].
  destruct (decide (l1 = l1)); [|congruence].
  destruct (decide (l2 = l2)); [|congruence].
  destruct (decide (l1 = l2)); [congruence|]. auto.
Qed.

(** The line case of the next theorem. *)
Lemma trimmed_line_meets_fillet (l1 l2 : loc) (r : Q) (s s' : store) (arc : IPath) :
  fillet (Some l1) (Some l2) r s = (Normal (Some arc), s') →
  l1 ≠ l2 →
  ∀ l a b, l = l1 ∨ l = l2 → s !! l = Some (Line a b) →
    ∃ c sa ea tangent,
      arc = Arc c r sa ea ∧
      slopeIntersectionPoint (Line a b) (perpendicularThrough (Line a b) c)
      = Some tangent ∧
      (s' !! l = Some (Line tangent b) ∨ s' !! l = Some (Line a tangent)) ∧
      let direction := angle_toDegrees (angle_ofPointInRadians c tangent) in
      sa = direction ∨ ea = direction.
Proof.
  intros E Hne l a b Hl Ho.
  destruct (fillet_outcomes (Some l1) (Some l2) r s)
    as [E'|[E'|(k1 & k2 & t & o1 & v0 & o2 & v1 & Hp1 & Hp2 & _ & S0 & S1 & _ & E')]];
    rewrite E' in E; inversion E as [[Harc Hs]]. clear E E'.
  inversion Hp1; subst k1. inversion Hp2; subst k2.
  pose proof (sd_object _ _ _ _ _ _ _ _ S0) as Ho1.
  pose proof (sd_object _ _ _ _ _ _ _ _ S1) as Ho2.
  destruct (committed_objects s l1 l2 (propertyName (matched0 t))
              (propertyName (matched1 t)) v0 v1 o1 o2 Hne Ho1 Ho2) as [Hc1 Hc2].
  destruct Hl as [-> | ->].
  - rewrite Ho in Ho1. inversion Ho1; subst o1.
    destruct (side_line _ _ _ _ _ _ _ _ _ S0) as (tangent & Hmeet & Hangle & Hw).
    rewrite Hw in Hc1.
    destruct (Qgt_bool _ 180);
      eexists _, _, _, tangent; (split; [reflexivity|]); (split; [exact Hmeet|]);
      (split; [destruct (isStart (matched0 t)); auto|]); simpl; auto.
  - rewrite Ho in Ho2. inversion Ho2; subst o2.
    destruct (side_line _ _ _ _ _ _ _ _ _ S1) as (tangent & Hmeet & Hangle & Hw).
    rewrite Hw in Hc2.
    destruct (Qgt_bool _ 180);
      eexists _, _, _, tangent; (split; [reflexivity|]); (split; [exact Hmeet|]);
      (split; [destruct (isStart (matched1 t)); auto|]); simpl; auto.
Qed.

(** The arc case of the next theorem. *)
Lemma trimmed_arc_meets_fillet (l1 l2 : loc) (r : Q) (s s' : store) (arc : IPath) :
  fillet (Some l1) (Some l2) r s = (Normal (Some arc), s') →
  l1 ≠ l2 →
  ∀ l c0 rad sa0 ea0, l = l1 ∨ l = l2 → s !! l = Some (Arc c0 rad sa0 ea0) →
    ∃ c sa ea,
      arc = Arc c r sa ea ∧
      let g := angle_ofLineInDegrees (Line c0 c) in
      (s' !! l = Some (Arc c0 rad g ea0) ∨ s' !! l = Some (Arc c0 rad sa0 g)) ∧
      let direction :=
        if measure_isArcConcaveTowardsPoint (Arc c0 rad sa0 ea0) (Some c)
        then g else g + 180 in
      sa = direction ∨ ea = direction.
Proof.
  intros E Hne l c0 rad sa0 ea0 Hl Ho.
  destruct (fillet_outcomes (Some l1) (Some l2) r s)
    as [E'|[E'|(k1 & k2 & t & o1 & v0 & o2 & v1 & Hp1 & Hp2 & _ & S0 & S1 & _ & E')]];
    rewrite E' in E; inversion E as [[Harc Hs]]. clear E E'.
  inversion Hp1; subst k1. inversion Hp2; subst k2.
  pose proof (sd_object _ _ _ _ _ _ _ _ S0) as Ho1.
  pose proof (sd_object _ _ _ _ _ _ _ _ S1) as Ho2.
  destruct (committed_objects s l1 l2 (propertyName (matched0 t))
              (propertyName (matched1 t)) v0 v1 o1 o2 Hne Ho1 Ho2) as [Hc1 Hc2].
  destruct Hl as [-> | ->].
  - rewrite Ho in Ho1. inversion Ho1; subst o1.
    destruct (side_arc _ _ _ _ _ _ _ _ _ _ _ S0) as (Hangle & Hw).
    rewrite Hw in Hc1.
    destruct (Qgt_bool _ 180);
      eexists _, _, _; (split; [reflexivity|]);
      (split; [destruct (isStart (matched0 t)); auto|]); simpl; auto.
  - rewrite Ho in Ho2. inversion Ho2; subst o2.
    destruct (side_arc _ _ _ _ _ _ _ _ _ _ _ S1) as (Hangle & Hw).
    rewrite Hw in Hc2.
    destruct (Qgt_bool _ 180);
      eexists _, _, _; (split; [reflexivity|]);
      (split; [destruct (isStart (matched1 t)); auto|]); simpl; auto.
Qed.

(** X10.  After a successful call on two distinct paths the trimmed
    paths meet the returned arc.  A path that was the line from [a] to [b]
    has one endpoint replaced by the tangent point, where the line's slope
    meets the perpendicular through the arc's centre, and keeps the other;
    the direction from that centre to the tangent point is the start or
    the end angle of the returned arc.  A path that was an arc has its
    start or its end angle replaced by the angle of the line from its
    centre to the centre of the returned arc, and keeps its centre, radius
    and other angle; that angle, plus 180 when the path is not concave
    towards the fillet centre, is the start or the end angle of the
    returned arc. *)
Theorem trimmed_paths_meet_fillet (l1 l2 : loc) (r : Q) (s s' : store) (arc : IPath) :
  fillet (Some l1) (Some l2) r s = (Normal (Some arc), s') →
  l1 ≠ l2 →
  (∀ l a b, l = l1 ∨ l = l2 → s !! l = Some (Line a b) →
     ∃ c sa ea tangent,
       arc = Arc c r sa ea ∧
       slopeIntersectionPoint (Line a b) (perpendicularThrough (Line a b) c)
       = Some tangent ∧
       (s' !! l = Some (Line tangent b) ∨ s' !! l = Some (Line a tangent)) ∧
       let direction := angle_toDegrees (angle_ofPointInRadians c tangent) in
       sa = direction ∨ ea = direction) ∧
  (∀ l c0 rad sa0 ea0, l = l1 ∨ l = l2 → s !! l = Some (Arc c0 rad sa0 ea0) →
     ∃ c sa ea,
       arc = Arc c r sa ea ∧
       let g := angle_ofLineInDegrees (Line c0 c) in
       (s' !! l = Some (Arc c0 rad g ea0) ∨ s' !! l = Some (Arc c0 rad sa0 g)) ∧
       let direction :=
         if measure_isArcConcaveTowardsPoint (Arc c0 rad sa0 ea0) (Some c)
         then g else g + 180 in
       sa = direction ∨ ea = direction).
Proof.
  intros E Hne. split.
  - apply (trimmed_line_meets_fillet _ _ _ _ _ _ E Hne).
  - apply (trimmed_arc_meets_fillet _ _ _ _ _ _ E Hne).
Qed.

(** ** The exits of a call that passed every stage *)

(** X11.  A call whose stages all produced a value ends in one of two
    ways, decided by the span of the arc from the first outcome's angle
    to the second's.  At a span of 180 it returns null and the store is
    unchanged.  Otherwise it returns the arc about the chosen centre with
    the requested radius, its angles swapped exactly when the span
    exceeds 180, and the store receives the two deferred writes. *)
Theorem recorded_call_exits (s : store) (l1 l2 : loc) (r : Q) (t : trace) :
  stages s l1 l2 r t →
  ∃ v0 v1,
    clipPath (outcome0 t) = set_prop l1 (propertyName (matched0 t)) v0 ∧
    clipPath (outcome1 t) = set_prop l2 (propertyName (matched1 t)) v1 ∧
    let a0 := filletAngle (outcome0 t) in
    let a1 := filletAngle (outcome1 t) in
    let span := measure_arcAngle (Arc (center t) r a0 a1) in
    fillet (Some l1) (Some l2) r s =
      if Qeq_bool span 180 then (Normal None, s)
      else (Normal (Some (if Qgt_bool span 180
                          then Arc (center t) r a1 a0
                          else Arc (center t) r a0 a1)),
            overwrite l2 (propertyName (matched1 t)) v1
              (overwrite l1 (propertyName (matched0 t)) v0 s)).
Proof.
  intros Hst.
  destruct (stages_sides _ _ _ _ _ Hst) as (o1 & v0 & o2 & v1 & S0 & S1).
  exists v0, v1.
  split; [exact (sd_clip _ _ _ _ _ _ _ _ S0)|].
  split; [exact (sd_clip _ _ _ _ _ _ _ _ S1)|].
  cbv zeta.
  rewrite (fillet_guided _ _ _ _ _ (st_guided _ _ _ _ _ Hst)),
          (st_hits _ _ _ _ _ Hst).
  cbv beta iota zeta. fold (center t). unfold bindO.
  rewrite (bind_Normal _ _ _ _ _ (st_outcome0 _ _ _ _ _ Hst)).
  rewrite (bind_Normal _ _ _ _ _ (st_outcome1 _ _ _ _ _ Hst)).
  apply (assemble_run _ _ _ _ _ _ _ _ _ _ _ _ _
           (sd_clip _ _ _ _ _ _ _ _ S0) (sd_object _ _ _ _ _ _ _ _ S0)
           (sd_clip _ _ _ _ _ _ _ _ S1) (sd_object _ _ _ _ _ _ _ _ S1)).
Qed.

(** X12.  What a successful call implies about its input: both paths are
    present and are lines or arcs, the radius is positive, an endpoint of
    the first path and an endpoint of the second are equal under the
    rounded comparison, and the probe circle about the first of these
    points with the fillet radius intersects both paths. *)
Theorem fillet_success_requires (p1 p2 : option loc) (r : Q) (s s' : store)
    (arc : IPath) :
  fillet p1 p2 r s = (Normal (Some arc), s') →
  ∃ l1 l2 o1 o2 b1 b2 p q hits1 hits2,
    p1 = Some l1 ∧ p2 = Some l2 ∧ 0 < r ∧
    s !! l1 = Some o1 ∧ s !! l2 = Some o2 ∧
    lineOrArc o1 ∧ lineOrArc o2 ∧
    endpointPoint o1 b1 = Some p ∧ endpointPoint o2 b2 = Some q ∧
    point_areEqualRounded p q = true ∧
    intersection (Some (Circle p r)) (Some o1) = Some hits1 ∧
    intersection (Some (Circle p r)) (Some o2) = Some hits2.
Proof.
  intros E.
  destruct (fillet_outcomes p1 p2 r s)
    as [E'|[E'|(l1 & l2 & t & a & v0 & b & v1 & -> & -> & Hst & _ & _ & _ & E')]];
    rewrite E' in E; inversion E. clear E E'.
  destruct Hst as [[Hguard Hm Hs0 Hs1 _ _] _ _ _].
  destruct (getMatchingPointProperties_Some _ _ _ _ _ _ Hm)
    as (o1 & o2 & ends1 & ends2 & Ho1 & Ho2 & He1 & He2 & Hspec).
  destruct (matching_spec_Some _ _ _ _ _ _ _ Hspec) as (i1 & i2 & Hfirst & Hm0 & Hm1).
  destruct (matchOf_Some _ _ _ _ _ He1 Hm0) as (Hp0 & _ & _ & Hl0).
  destruct (matchOf_Some _ _ _ _ _ He2 Hm1) as (Hp1 & _ & _ & Hl1).
  destruct (shard_Some _ _ _ _ _ Hs0) as (a1 & hits1 & Ha1 & Hh1 & _).
  destruct (shard_Some _ _ _ _ _ Hs1) as (a2 & hits2 & Ha2 & Hh2 & _).
  rewrite Hp0, Ho1 in Ha1. inversion Ha1; subst a1.
  rewrite Hp1, Ho2 in Ha2. inversion Ha2; subst a2.
  exists l1, l2, o1, o2, (isStart (matched0 t)), (isStart (matched1 t)),
         (point (matched0 t)), (point (matched1 t)), hits1, hits2.
  repeat (split; [first [reflexivity | assumption]|]).
  split; [apply guard_iff; exact Hguard|].
  repeat (split; [assumption|]).
  split; [destruct o1; simpl in He1; first [discriminate | exact I]|].
  split; [destruct o2; simpl in He2; first [discriminate | exact I]|].
  split; [eapply matchOf_endpoint; eassumption|].
  split; [eapply matchOf_endpoint; eassumption|].
  split; [|split; assumption].
  unfold first_match in Hfirst. apply find_some in Hfirst as [_ Htest].
  simpl in Htest. rewrite Hl0, Hl1 in Htest. exact Htest.
Qed.

(** ** Calls in sequence *)

Lemma same_type_lineOrArc (o o' : IPath) : same_type o o' → lineOrArc o → lineOrArc o'.
Proof. destruct o, o'; simpl; tauto. Qed.

(** X13.  A call on two lines or arcs, however it ends, leaves both
    paths in place with their types, so that a further call on the same
    two paths, with any radius, again ends normally: trimming never turns
    a path into something the core cannot read. *)
Theorem paths_stay_readable (l1 l2 : loc) (r : Q) (s s' : store) (o1 o2 : IPath)
    (out : completion (option IPath)) :
  s !! l1 = Some o1 → s !! l2 = Some o2 →
  lineOrArc o1 → lineOrArc o2 →
  fillet (Some l1) (Some l2) r s = (out, s') →
  (∃ o1' o2', s' !! l1 = Some o1' ∧ s' !! l2 = Some o2' ∧
              same_type o1 o1' ∧ same_type o2 o2') ∧
  ∀ r', ∃ x s'', fillet (Some l1) (Some l2) r' s' = (Normal x, s'').
Proof.
  intros Ho1 Ho2 Hty1 Hty2 E.
  assert (Hkept : ∃ o1' o2', s' !! l1 = Some o1' ∧ s' !! l2 = Some o2' ∧
                             same_type o1 o1' ∧ same_type o2 o2').
  { destruct (fillet_outcomes (Some l1) (Some l2) r s)
      as [E'|[E'|(k1 & k2 & t & a & v0 & b & v1 & Hp1 & Hp2 & _ & _ & _ & _ & E')]];
      rewrite E' in E; inversion E as [[Hout Hs]]; clear E E'.
    - subst s'. exists o1, o2. repeat split; auto using same_type_refl.
    - subst s'. exists o1, o2. repeat split; auto using same_type_refl.
    - inversion Hp1; subst k1. inversion Hp2; subst k2.
      destruct (overwrite_twice_frame l1 l2 (propertyName (matched0 t))
                  (propertyName (matched1 t)) v0 v1 s l1 o1 Ho1) as (o1' & Ha & Hta & _).
      destruct (overwrite_twice_frame l1 l2 (propertyName (matched0 t))
                  (propertyName (matched1 t)) v0 v1 s l2 o2 Ho2) as (o2' & Hb & Htb & _).
      exists o1', o2'. auto. }
  split; [exact Hkept|].
  destruct Hkept as (o1' & o2' & Ho1' & Ho2' & Hta & Htb).
  intros r'.
  apply (fillet_normal l1 l2 r' s' o1' o2' Ho1' Ho2');
    eapply same_type_lineOrArc; eassumption.
Qed.

End FurtherProperties.

(** * Further scenarios *)

Section FurtherScenarios.
Import AxisGeometry Scenes.

Lemma areEqualRounded_refl (p : IPoint) : areEqualRounded p p = true.
Proof. unfold areEqualRounded. rewrite !Qeq_bool_refl. reflexivity. Qed.

Lemma areEqualRounded_sym (p q : IPoint) : areEqualRounded p q = areEqualRounded q p.
Proof.
  unfold areEqualRounded.
  rewrite (Qeq_bool_comm (fst p) (fst q)), (Qeq_bool_comm (snd p) (snd q)).
  reflexivity.
Qed.

(** Radius 0 with a circle as first path: null, not an exception. *)
Lemma fillet_invalid_input_is_null_witness :
  (Some 1%nat = None ∨ Some 2%nat = None ∨ 0 <= 0) ∧
  fillet (Some 1%nat) (Some 2%nat) 0 circleCorner = (Normal None, circleCorner).
Proof.
  assert (Hbad : Some 1%nat = None ∨ Some 2%nat = None ∨ 0 <= 0)
    by (right; right; apply Qle_refl).
  split; [exact Hbad|].
  exact (fillet_invalid_input_is_null (H := geometry) _ _ _ circleCorner Hbad).
Defined.

Lemma matching_is_sound_witness :
  getMatchingPointProperties 1%nat 2%nat corner
  = (Normal (Some (fst cornerMatch, snd cornerMatch)), corner) ∧
  point_areEqualRounded (point (fst cornerMatch)) (point (snd cornerMatch)) = true.
Proof.
  assert (E : getMatchingPointProperties 1%nat 2%nat corner
              = (Normal (Some (fst cornerMatch, snd cornerMatch)), corner))
    by (vm_compute; reflexivity).
  split; [exact E|].
  destruct (matching_is_sound (H := geometry) _ _ _ _ _ _ E)
    as (_ & _ & _ & _ & _ & Heq & _).
  exact Heq.
Defined.

Lemma matching_null_iff_no_pair_witness :
  apart !! 1%nat = Some (Line (0, 0) (1, 0)) ∧
  apart !! 2%nat = Some (Line (5, 5) (6, 5)) ∧
  lineOrArc (Line (0, 0) (1, 0)) ∧ lineOrArc (Line (5, 5) (6, 5)) ∧
  getMatchingPointProperties 1%nat 2%nat apart = (Normal None, apart).
Proof.
  assert (Ho1 : apart !! 1%nat = Some (Line (0, 0) (1, 0))) by (vm_compute; reflexivity).
  assert (Ho2 : apart !! 2%nat = Some (Line (5, 5) (6, 5))) by (vm_compute; reflexivity).
  assert (Hty1 : lineOrArc (Line (0, 0) (1, 0))) by exact I.
  assert (Hty2 : lineOrArc (Line (5, 5) (6, 5))) by exact I.
  repeat (split; [assumption|]).
  apply (matching_null_iff_no_pair (H := geometry) _ _ _ _ _ Ho1 Ho2 Hty1 Hty2).
  intros b1 b2 p q Hp Hq.
  destruct b1, b2; inversion Hp; inversion Hq; reflexivity.
Defined.

Lemma same_path_twice_witness :
  corner !! 1%nat = Some (Line (0, 0) (10, 0)) ∧
  lineOrArc (Line (0, 0) (10, 0)) ∧
  (∀ p, point_areEqualRounded p p = true) ∧
  ∃ m, getMatchingPointProperties 1%nat 1%nat corner = (Normal (Some (m, m)), corner) ∧
       propertyName m = "origin".
Proof.
  assert (Ho : corner !! 1%nat = Some (Line (0, 0) (10, 0))) by (vm_compute; reflexivity).
  assert (Hty : lineOrArc (Line (0, 0) (10, 0))) by exact I.
  repeat (split; [first [assumption | exact areEqualRounded_refl]|]).
  destruct (same_path_twice (H := geometry) _ _ _ Ho Hty areEqualRounded_refl)
    as (m & Hm & _ & _ & _ & Hname).
  exists m. split; [exact Hm|]. simpl in Hname. inversion Hname. reflexivity.
Defined.

Lemma matching_null_is_symmetric_witness :
  apart !! 1%nat = Some (Line (0, 0) (1, 0)) ∧
  apart !! 2%nat = Some (Line (5, 5) (6, 5)) ∧
  (∀ p q, point_areEqualRounded p q = point_areEqualRounded q p) ∧
  getMatchingPointProperties 1%nat 2%nat apart = (Normal None, apart) ∧
  getMatchingPointProperties 2%nat 1%nat apart = (Normal None, apart).
Proof.
  assert (Ho1 : apart !! 1%nat = Some (Line (0, 0) (1, 0))) by (vm_compute; reflexivity).
  assert (Ho2 : apart !! 2%nat = Some (Line (5, 5) (6, 5))) by (vm_compute; reflexivity).
  assert (E : getMatchingPointProperties 1%nat 2%nat apart = (Normal None, apart))
    by (vm_compute; reflexivity).
  repeat (split; [first [assumption | exact areEqualRounded_sym]|]).
  exact (proj1 (matching_null_is_symmetric (H := geometry) _ _ _ _ _
                  Ho1 Ho2 I I areEqualRounded_sym) E).
Defined.

(** Radius 20 on the corner: the probe circle misses the first side. *)
Lemma probe_miss_is_null_witness :
  0 < 20 ∧
  getMatchingPointProperties 1%nat 2%nat corner
  = (Normal (Some (fst cornerMatch, snd cornerMatch)), corner) ∧
  intersection (Some (Circle (point (fst cornerMatch)) 20))
    (Some (Line (0, 0) (10, 0))) = None ∧
  fillet (Some 1%nat) (Some 2%nat) 20 corner = (Normal None, corner).
Proof.
  assert (Hr : 0 < 20) by reflexivity.
  assert (E : getMatchingPointProperties 1%nat 2%nat corner
              = (Normal (Some (fst cornerMatch, snd cornerMatch)), corner))
    by (vm_compute; reflexivity).
  assert (Ho1 : corner !! 1%nat = Some (Line (0, 0) (10, 0))) by (vm_compute; reflexivity).
  assert (Ho2 : corner !! 2%nat = Some (Line (10, 0) (10, 10)))
    by (vm_compute; reflexivity).
  assert (Hmiss : intersection (Some (Circle (point (fst cornerMatch)) 20))
                    (Some (Line (0, 0) (10, 0))) = None)
    by (vm_compute; reflexivity).
  repeat (split; [assumption|]).
  exact (probe_miss_is_null (H := geometry) _ _ _ _ _ _ _ _ Hr E Ho1 Ho2
           (or_introl Hmiss)).
Defined.

(** The first side of the corner, with the fillet centre at (8, 2): the
    tangent point is (8, 0). *)
Lemma line_side_clips_to_tangent_point_witness :
  let m := mkMatch 1%nat false "end" (10, 0) None in
  corner !! path m = Some (Line (0, 0) (10, 0)) ∧
  ∃ tangent,
    slopeIntersectionPoint (Line (0, 0) (10, 0))
      (perpendicularThrough (Line (0, 0) (10, 0)) (8, 2)) = Some tangent ∧
    areEqualRounded tangent (8, 0) = true ∧
    ∃ res, fst (getFilletResult m 2 (8, 2) corner) = Normal (Some res).
Proof.
  intros m.
  assert (Ho : corner !! path m = Some (Line (0, 0) (10, 0))) by (vm_compute; reflexivity).
  split; [exact Ho|].
  pose proof (line_side_clips_to_tangent_point (H := geometry) m 2 (8, 2) corner
                _ _ Ho) as Hside.
  destruct (slopeIntersectionPoint _ _) as [tangent|] eqn:Hmeet;
    [|vm_compute in Hmeet; discriminate Hmeet].
  exists tangent. split; [reflexivity|].
  split; [vm_compute in Hmeet; inversion Hmeet; reflexivity|].
  destruct Hside as (res & _ & _ & Hrun).
  exists res. rewrite Hrun. simpl.
  vm_compute in Hmeet. inversion Hmeet. reflexivity.
Defined.

Lemma fillet_raises_iff_other_type_witness :
  circleCorner !! 1%nat = Some (Circle (0, 0) 1) ∧
  circleCorner !! 2%nat = Some (Line (10, 0) (10, 10)) ∧
  ∃ e s', fillet (Some 1%nat) (Some 2%nat) 2 circleCorner = (Throw e, s').
Proof.
  assert (Ho1 : circleCorner !! 1%nat = Some (Circle (0, 0) 1)) by (vm_compute; reflexivity).
  assert (Ho2 : circleCorner !! 2%nat = Some (Line (10, 0) (10, 10)))
    by (vm_compute; reflexivity).
  repeat (split; [assumption|]).
  apply (proj1 (fillet_raises_iff_other_type (H := geometry) _ _ 2 _ _ _ Ho1 Ho2)).
  split; [reflexivity|]. left. simpl. tauto.
Defined.

(** Radius 2 on the corner: the first side ends at the tangent point and
    keeps its origin. *)
Lemma trimmed_paths_meet_fillet_witness :
  let out := fillet (Some 1%nat) (Some 2%nat) 2 corner in
  out = (Normal (Some (returned out)), snd out) ∧
  1%nat ≠ 2%nat ∧
  ∃ tangent, snd out !! 1%nat = Some (Line (0, 0) tangent).
Proof.
  intros out.
  assert (E : out = (Normal (Some (returned out)), snd out))
    by (vm_compute; reflexivity).
  assert (Hne : 1%nat ≠ 2%nat) by discriminate.
  split; [exact E|]. split; [exact Hne|].
  destruct (proj1 (trimmed_paths_meet_fillet (H := geometry) _ _ _ _ _ _ E Hne)
              1%nat (0, 0) (10, 0) (or_introl eq_refl) ltac:(vm_compute; reflexivity))
    as (c & sa & ea & tangent & _ & _ & [Hstart|Hend] & _).
  - exfalso. vm_compute in Hstart. discriminate Hstart.
  - exists tangent. exact Hend.
Defined.

Lemma recorded_call_exits_witness :
  stages corner 1%nat 2%nat 2 cornerTrace ∧
  ∃ v0 v1,
    clipPath (outcome0 cornerTrace)
    = set_prop 1%nat (propertyName (matched0 cornerTrace)) v0 ∧
    clipPath (outcome1 cornerTrace)
    = set_prop 2%nat (propertyName (matched1 cornerTrace)) v1.
Proof.
  assert (Hst : stages corner 1%nat 2%nat 2 cornerTrace)
    by (repeat constructor; vm_compute; reflexivity).
  split; [exact Hst|].
  destruct (recorded_call_exits (H := geometry) _ _ _ _ _ Hst)
    as (v0 & v1 & Hc0 & Hc1 & _).
  exists v0, v1. split; [exact Hc0 | exact Hc1].
Defined.

Lemma fillet_success_requires_witness :
  let out := fillet (Some 1%nat) (Some 2%nat) 2 corner in
  out = (Normal (Some (returned out)), snd out) ∧
  ∃ o p hits, corner !! 1%nat = Some o ∧
              intersection (Some (Circle p 2)) (Some o) = Some hits.
Proof.
  intros out.
  assert (E : out = (Normal (Some (returned out)), snd out))
    by (vm_compute; reflexivity).
  split; [exact E|].
  destruct (fillet_success_requires (H := geometry) _ _ _ _ _ _ E)
    as (l1 & l2 & o1 & o2 & b1 & b2 & p & q & hits1 & hits2 &
        Hp1 & _ & _ & Ho1 & _ & _ & _ & _ & _ & _ & Hh1 & _).
  injection Hp1 as <-.
  exists o1, p, hits1. split; [exact Ho1 | exact Hh1].
Defined.

(** Radius 2 on the corner, then radius 1 on the trimmed corner. *)
Lemma paths_stay_readable_witness :
  let out := fillet (Some 1%nat) (Some 2%nat) 2 corner in
  corner !! 1%nat = Some (Line (0, 0) (10, 0)) ∧
  corner !! 2%nat = Some (Line (10, 0) (10, 10)) ∧
  out = (fst out, snd out) ∧
  ∃ x s'', fillet (Some 1%nat) (Some 2%nat) 1 (snd out) = (Normal x, s'').
Proof.
  intros out.
  assert (Ho1 : corner !! 1%nat = Some (Line (0, 0) (10, 0))) by (vm_compute; reflexivity).
  assert (Ho2 : corner !! 2%nat = Some (Line (10, 0) (10, 10)))
    by (vm_compute; reflexivity).
  assert (E : out = (fst out, snd out)) by (vm_compute; reflexivity).
  repeat (split; [assumption|]).
  exact (proj2 (paths_stay_readable (H := geometry) _ _ _ _ _ _ _ _ Ho1 Ho2 I I E) 1).
Defined.

End FurtherScenarios.
